(** * cctz: civil-time conversion, formatting and parsing

    A shallow embedding of [src/cctz_libc.cc] and [src/cctz_fmt.cc].
    Machine integers are values of [Z] with the two's-complement
    wrap-around of their width written out; C strings are [string]s
    read through [peek], which yields the terminating NUL at the end;
    the scratch buffer of [Format] is the run of characters between
    the moving pointer and the end of the buffer. *)

From Stdlib Require Import ZArith Lia Bool List Ascii String.
Import ListNotations.

Local Open Scope Z_scope.

(** ** Machine integers *)

Module CInt.

(** Two's-complement reduction of [z] to a signed integer of [bits] bits. *)
Definition wrap (bits z : Z) : Z :=
  (z + 2 ^ (bits - 1)) mod 2 ^ bits - 2 ^ (bits - 1).

Definition int32 (z : Z) : Z := wrap 32 z.
Definition int64 (z : Z) : Z := wrap 64 z.
Definition int128 (z : Z) : Z := wrap 128 z.

Definition INT_MIN : Z := - 2 ^ 31.
Definition INT_MAX : Z := 2 ^ 31 - 1.
Definition INT64_MIN : Z := - 2 ^ 63.
Definition INT64_MAX : Z := 2 ^ 63 - 1.

Definition in_int32 (z : Z) : Prop := INT_MIN <= z <= INT_MAX.
Definition in_int64 (z : Z) : Prop := INT64_MIN <= z <= INT64_MAX.

End CInt.
Import CInt.

(** ** Times ([src/cctz.h], [src/cctz_if.h]) *)

(** [duration] and [time_point] count nanoseconds in a 128-bit integer;
    a [time_point] counts them from the Unix epoch. *)
Definition duration : Type := Z.
Definition time_point : Type := Z.

Definition kNanosPerSecond : Z := 1000000000.

(** [std::chrono::seconds(t)] converted to [duration]. *)
Definition seconds (t : Z) : duration := int128 (t * kNanosPerSecond).

(** [duration_cast<duration<int64_t>>(d).count()]: the division is done
    in the 128-bit type and the quotient is narrowed to [int64_t]. *)
Definition duration_cast_seconds (d : duration) : Z :=
  int64 (Z.quot d kNanosPerSecond).

Definition ToUnixSeconds (tp : time_point) : Z :=
  duration_cast_seconds (int128 (tp - 0)).

Definition FromUnixSeconds (t : Z) : time_point :=
  int128 (0 + seconds t).

Inductive Kind : Type := UNIQUE | SKIPPED | REPEATED.

Record TimeInfo : Type := mkTimeInfo {
  kind : Kind;
  pre : time_point;
  trans : time_point;
  post : time_point;
  normalized : bool
}.

Record Breakdown : Type := mkBreakdown {
  bd_year : Z;
  bd_month : Z;
  bd_day : Z;
  bd_hour : Z;
  bd_minute : Z;
  bd_second : Z;
  bd_subsecond : duration;
  bd_weekday : Z;
  bd_yearday : Z;
  bd_offset : Z;
  bd_is_dst : bool;
  bd_abbr : string
}.

(** [std::tm], with the [tm_gmtoff] and [tm_zone] extensions. *)
Record tm : Type := mkTm {
  tm_sec : Z;
  tm_min : Z;
  tm_hour : Z;
  tm_mday : Z;
  tm_mon : Z;
  tm_year : Z;
  tm_wday : Z;
  tm_yday : Z;
  tm_isdst : Z;
  tm_gmtoff : Z;
  tm_zone : string
}.

(** The functions of the C library that the code calls.  [strptime]
    reports how many characters of its input it consumed and the
    structure it leaves behind; [strftime] is given the size of the
    output array and yields the characters it placed there. *)
Record Host : Type := mkHost {
  gmtime_r : Z -> tm;
  localtime_r : Z -> tm;
  mktime : tm -> Z * tm;
  strftime : nat -> string -> tm -> string;
  strptime : string -> string -> tm -> option nat * tm
}.

(** ** The libc-backed zone ([src/cctz_libc.cc]) *)

Record TimeZoneLibC : Type := mkTimeZoneLibC {
  local_ : bool;
  offset_ : Z;
  abbr_ : string
}.

(** The constructor; the two fields it leaves unset for "localtime"
    are never read in that mode. *)
Definition TimeZoneLibC_new (name : string) : TimeZoneLibC :=
  if String.eqb name "localtime"
  then mkTimeZoneLibC true 0 ""
  else mkTimeZoneLibC false 0 "UTC".

(** The whole seconds and the subsecond that [BreakTime] computes
    before it asks the C library for the calendar fields. *)
Definition BreakTime_split (tp : time_point) : Z * duration :=
  let t := ToUnixSeconds tp in
  let subsecond := int128 (tp - FromUnixSeconds t) in
  if subsecond <? 0
  then (int64 (t - 1), int128 (subsecond + seconds 1))
  else (t, subsecond).

Definition BreakTime (h : Host) (z : TimeZoneLibC) (tp : time_point)
  : Breakdown :=
  let '(t, subsecond) := BreakTime_split tp in
  let '(tm0, abbr) :=
    if local_ z
    then let tm0 := localtime_r h t in (tm0, tm_zone tm0)
    else let tm0 := gmtime_r h t in
         (mkTm (tm_sec tm0) (tm_min tm0) (tm_hour tm0) (tm_mday tm0)
               (tm_mon tm0) (tm_year tm0) (tm_wday tm0) (tm_yday tm0)
               (tm_isdst tm0) (int64 (tm_gmtoff tm0 + offset_ z))
               (tm_zone tm0),
          abbr_ z) in
  mkBreakdown
    (int32 (tm_year tm0 + 1900))
    (int32 (tm_mon tm0 + 1))
    (tm_mday tm0)
    (tm_hour tm0)
    (tm_min tm0)
    (tm_sec tm0)
    subsecond
    (if tm_wday tm0 =? 0 then 7 else tm_wday tm0)
    (int32 (tm_yday tm0 + 1))
    (int32 (tm_gmtoff tm0))
    (negb (tm_isdst tm0 =? 0))
    abbr.

(** Normalize [val] so that [0 <= val < base]; yields the carry, the
    new [val] and the new [normalized] flag. *)
Definition NormalizeField (base val : Z) (normalized : bool)
  : Z * Z * bool :=
  let carry := Z.quot val base in
  let val := Z.rem val base in
  let '(carry, val) :=
    if val <? 0 then (int32 (carry - 1), int32 (val + base))
    else (carry, val) in
  (carry, val, if negb (carry =? 0) then true else normalized).

Definition IsLeap (year : Z) : bool :=
  (Z.rem year 4 =? 0)
  && (negb (Z.rem year 100 =? 0) || (Z.rem year 400 =? 0)).

(** The month lengths in non-leap and leap years; index 0 holds -1. *)
Definition kDaysPerMonth (leap : bool) (mon : Z) : Z :=
  nth (Z.to_nat mon)
      (if leap
       then [-1; 31; 29; 31; 30; 31; 30; 31; 31; 30; 31; 30; 31]
       else [-1; 31; 28; 31; 30; 31; 30; 31; 31; 30; 31; 30; 31])
      0.

Definition kDaysPerYear (leap : bool) : Z := if leap then 366 else 365.

Definition DayOrdinal (year month day : Z) : Z :=
  let year := int64 (year - (if month <=? 2 then 1 else 0)) in
  let era := Z.quot (if year >=? 0 then year else int64 (year - 399)) 400 in
  let yoe := int32 (int64 (year - int64 (era * 400))) in
  let doy :=
    int32 (int32 (Z.quot (int32 (int32 (153 *
             int32 (month + (if month >? 2 then -3 else 9))) + 2)) 5 + day)
           - 1) in
  let doe :=
    int32 (int32 (int32 (yoe * 365) + Z.quot yoe 4) - Z.quot yoe 100
           + doy) in
  int64 (int64 (int64 (era * 146097) + doe) - 719468).

(** [while (day > year_len) { day -= year_len; year += 1; ... }], for
    at most [fuel] turns. *)
Fixpoint years_forward (fuel : nat) (year day year_len : Z) : Z * Z :=
  match fuel with
  | O => (year, day)
  | S fuel =>
      if day >? year_len
      then let day := int32 (day - year_len) in
           let year := int64 (year + 1) in
           years_forward fuel year day (kDaysPerYear (IsLeap year))
      else (year, day)
  end.

(** [while (day <= 0) { year -= 1; day += kDaysPerYear[IsLeap(year)]; }] *)
Fixpoint years_backward (fuel : nat) (year day : Z) : Z * Z :=
  match fuel with
  | O => (year, day)
  | S fuel =>
      if day <=? 0
      then let year := int64 (year - 1) in
           years_backward fuel year
             (int32 (day + kDaysPerYear (IsLeap year)))
      else (year, day)
  end.

(** [while (day > kDaysPerMonth[leap_year][mon]) { ... }] *)
Fixpoint months_forward (fuel : nat) (year mon day : Z) (leap_year : bool)
  : Z * Z * Z :=
  match fuel with
  | O => (year, mon, day)
  | S fuel =>
      if day >? kDaysPerMonth leap_year mon
      then let day := int32 (day - kDaysPerMonth leap_year mon) in
           let mon := int32 (mon + 1) in
           if mon >? 12
           then let year := int64 (year + 1) in
                months_forward fuel year 1 day (IsLeap year)
           else months_forward fuel year mon day leap_year
      else (year, mon, day)
  end.

(** The civil fields after normalization in the UTC branch of
    [MakeTimeInfo], with the [normalized] flag.  Each loop is given the
    number of turns it can take at most: a turn of the loops over the
    years moves the day by at least 365 and a turn of the loop over the
    months by at least 28. *)
Definition NormalizeCivil (year mon day hour min sec : Z)
  : Z * Z * Z * Z * Z * Z * bool :=
  let normalized := false in
  let '(c, sec, normalized) := NormalizeField 60 sec normalized in
  let min := int32 (min + c) in
  let '(c, min, normalized) := NormalizeField 60 min normalized in
  let hour := int32 (hour + c) in
  let '(c, hour, normalized) := NormalizeField 24 hour normalized in
  let day := int32 (day + c) in
  let mon := int32 (mon - 1) in
  let '(c, mon, normalized) := NormalizeField 12 mon normalized in
  let year := int64 (year + c) in
  let mon := int32 (mon + 1) in
  let year := int64 (year + (if mon >? 2 then 1 else 0)) in
  let year_len := kDaysPerYear (IsLeap year) in
  let '(year, day) :=
    years_forward (Z.to_nat (Z.quot day 365)) year day year_len in
  let '(year, day) :=
    years_backward (S (Z.to_nat (Z.quot (- day) 365))) year day in
  let year := int64 (year - (if mon >? 2 then 1 else 0)) in
  let '(year, mon, day) :=
    months_forward (Z.to_nat (Z.quot day 28)) year mon day (IsLeap year) in
  (year, mon, day, hour, min, sec, normalized).

Definition MakeTimeInfo (h : Host) (z : TimeZoneLibC)
  (year mon day hour min sec : Z) : TimeInfo :=
  let '(t, normalized) :=
    if local_ z
    then
      let tm0 := mkTm sec min hour day (int32 (mon - 1))
                      (int32 (int64 (year - 1900))) 0 0 (-1) 0 "" in
      let '(t, tm1) := mktime h tm0 in
      (t,
       negb (tm_year tm1 =? int64 (year - 1900))
       || negb (tm_mon tm1 =? int32 (mon - 1))
       || negb (tm_mday tm1 =? day) || negb (tm_hour tm1 =? hour)
       || negb (tm_min tm1 =? min) || negb (tm_sec tm1 =? sec))
    else
      let '(year, mon, day, hour, min, sec, normalized) :=
        NormalizeCivil year mon day hour min sec in
      (int64 (int64 (int64 (int64 (int64 (int64
         (DayOrdinal year mon day * 24) + hour) * 60) + min) * 60) + sec),
       normalized) in
  let p := FromUnixSeconds t in
  mkTimeInfo UNIQUE p p p normalized.

(** The interface of a zone backend ([src/cctz_if.h]), and the libc
    backend as an instance of it. *)
Record TimeZoneIf : Type := mkTimeZoneIf {
  If_BreakTime : time_point -> Breakdown;
  If_MakeTimeInfo : Z -> Z -> Z -> Z -> Z -> Z -> TimeInfo
}.

Definition TimeZoneLibC_If (h : Host) (z : TimeZoneLibC) : TimeZoneIf :=
  mkTimeZoneIf (BreakTime h z) (MakeTimeInfo h z).

(** Modelled from the spec: the zone facade ([TimeZone], [UTCTimeZone]
    and the free functions [BreakTime(tp, tz)] and
    [MakeTimeInfo(..., tz)]), whose definitions are not among the
    source files.  A zone handle shares one backend and the free
    functions delegate to it; the UTC zone is the fixed-offset backend,
    that is the libc backend built from a name other than "localtime". *)
Definition TimeZone : Type := TimeZoneIf.

Definition UTCTimeZone (h : Host) : TimeZone :=
  TimeZoneLibC_If h (TimeZoneLibC_new "UTC").

(** ** C strings and characters *)

Definition NUL : ascii := "000"%char.

(** [*p]: the character at the pointer; the terminator at the end. *)
Definition peek (s : string) : ascii :=
  match s with
  | EmptyString => NUL
  | String c _ => c
  end.

(** [p + 1] *)
Definition next (s : string) : string :=
  match s with
  | EmptyString => EmptyString
  | String _ s' => s'
  end.

(** [s.c_str()] as the characters that a reader of the C string sees. *)
Fixpoint c_str (s : string) : string :=
  match s with
  | EmptyString => EmptyString
  | String c s' => if Ascii.eqb c NUL then EmptyString else String c (c_str s')
  end.

(** [strchr(s, c) - s]; the terminator of [s] matches NUL. *)
Fixpoint strchr (s : string) (c : ascii) : option Z :=
  match s with
  | EmptyString => if Ascii.eqb c NUL then Some 0 else None
  | String a s' =>
      if Ascii.eqb a c then Some 0
      else match strchr s' c with
           | Some i => Some (i + 1)
           | None => None
           end
  end.

(** [std::isspace] and [std::isdigit] in the C locale. *)
Definition isspace (c : ascii) : bool :=
  let n := Z.of_nat (nat_of_ascii c) in
  ((9 <=? n) && (n <=? 13)) || (n =? 32).

Definition isdigit (c : ascii) : bool :=
  let n := Z.of_nat (nat_of_ascii c) in
  (48 <=? n) && (n <=? 57).

(** [while (std::isspace( *p)) ++p;] *)
Fixpoint skip_spaces (s : string) : string :=
  match s with
  | EmptyString => EmptyString
  | String c s' => if isspace c then skip_spaces s' else s
  end.

(** [q - p] for a pointer [q] reached from [p] by moving forward. *)
Definition consumed (p q : string) : Z :=
  Z.of_nat (String.length p) - Z.of_nat (String.length q).

(** [std::string(p, q - p)] *)
Definition between (p q : string) : string :=
  substring 0 (String.length p - String.length q) p.

(** ** Formatting ([src/cctz_fmt.cc]) *)

Definition ToTM (bd : Breakdown) : tm :=
  mkTm (bd_second bd) (bd_minute bd) (bd_hour bd) (bd_day bd)
       (int32 (bd_month bd - 1))
       (if bd_year bd <? int64 (INT_MIN + 1900) then INT_MIN
        else if int64 (bd_year bd - 1900) >? INT_MAX then INT_MAX
        else int32 (int64 (bd_year bd - 1900)))
       (Z.rem (bd_weekday bd) 7)
       (int32 (bd_yearday bd - 1))
       (if bd_is_dst bd then 1 else 0)
       0 "".

Definition kDigits : string := "0123456789".

(** [kDigits[i]] *)
Definition kDigits_at (i : Z) : ascii :=
  if i <? 0 then NUL
  else match String.get (Z.to_nat i) kDigits with
       | Some c => c
       | None => NUL
       end.

(** The scratch buffer [buf] of [Format] and the pointers into it.  Every
    conversion writes with [*--ep = c], from the end of the buffer
    downwards, so a pointer into the buffer is modelled by the
    characters stored from it to the end of the buffer, and a write is
    a [String c ep].  The pointer has left the buffer when more than
    [sizeof_buf] characters lie between it and the end. *)
Definition kDigits10_64 : Z := 18.

Definition sizeof_buf : Z := 3 + kDigits10_64.

(** [do { --width; *--ep = kDigits[v % 10]; } while (v /= 10);], for at
    most [fuel + 1] turns. *)
Fixpoint Format64_digits (fuel : nat) (ep : string) (width v : Z)
  : string * Z :=
  let width := int32 (width - 1) in
  let ep := String (kDigits_at (Z.rem v 10)) ep in
  let v := Z.quot v 10 in
  match fuel with
  | O => (ep, width)
  | S fuel => if v =? 0 then (ep, width) else Format64_digits fuel ep width v
  end.

(** [while (--width >= 0) *--ep = '0';] with [n] the value of [width]
    when positive. *)
Fixpoint zero_pad (n : nat) (ep : string) : string :=
  match n with
  | O => ep
  | S n => zero_pad n (String "0" ep)
  end.

Definition Format64 (ep : string) (width v : Z) : string :=
  let neg := v <? 0 in
  let '(ep, width, v) :=
    if v <? 0
    then
      let width := int32 (width - 1) in
      let '(ep, width, v) :=
        if v =? INT64_MIN
        then
          let last_digit := int32 (- Z.rem v 10) in
          let v := Z.quot v 10 in
          let '(v, last_digit) :=
            if last_digit <? 0
            then (int64 (v + 1), int32 (last_digit + 10))
            else (v, last_digit) in
          (String (kDigits_at last_digit) ep, int32 (width - 1), v)
        else (ep, width, v) in
      (ep, width, int64 (- v))
    else (ep, width, v) in
  let '(ep, width) :=
    Format64_digits (Z.to_nat (Z.log2 v)) ep width v in
  let ep := zero_pad (Z.to_nat width) ep in
  if neg then String "-" ep else ep.

(** Formats [0 .. 99] as %02d. *)
Definition Format02d (ep : string) (v : Z) : string :=
  let ep := String (kDigits_at (Z.rem v 10)) ep in
  String (kDigits_at (Z.rem (Z.quot v 10) 10)) ep.

(** Formats a UTC offset, like +00:00. *)
Definition FormatOffset (ep : string) (minutes : Z) (sep : ascii) : string :=
  let '(minutes, sign) :=
    if minutes <? 0 then (int32 (- minutes), "-"%char)
    else (minutes, "+"%char) in
  let ep := Format02d ep (Z.rem minutes 60) in
  let ep := if Ascii.eqb sep NUL then ep else String sep ep in
  let ep := Format02d ep (Z.quot minutes 60) in
  String sign ep.

(** Formats a [std::tm] using [strftime], growing the array from twice
    the length of the directive. *)
Definition FormatTM (h : Host) (out fmt : string) (tm0 : tm) : string :=
  let try (i : nat) (k : string) : string :=
    let r := strftime h (String.length fmt * i) fmt tm0 in
    if (String.length r =? 0)%nat then k else (out ++ r)%string in
  try 2%nat (try 4%nat (try 8%nat (try 16%nat out))).

(** 10^n for everything that can be represented by an [int64_t]. *)
Definition kExp10 (n : Z) : Z :=
  nth (Z.to_nat n)
    [1; 10; 100; 1000; 10000; 100000; 1000000; 10000000; 100000000;
     1000000000; 10000000000; 100000000000; 1000000000000;
     10000000000000; 100000000000000; 1000000000000000;
     10000000000000000; 100000000000000000; 1000000000000000000]
    0.

(** [p == q] for two pointers into the same C string. *)
Definition ptr_eqb (p q : string) : bool :=
  (String.length p =? String.length q)%nat.

(** The digit loop of [ParseInt]; yields the pointer, the accumulated
    (negative) value and [erange]. *)
Fixpoint ParseInt_digits (bits : Z) (dp : string) (width value : Z)
  : string * Z * bool :=
  let kmin := - 2 ^ (bits - 1) in
  match dp with
  | EmptyString => (dp, value, false)
  | String c dp' =>
      match strchr kDigits c with
      | None => (dp, value, false)
      | Some d =>
          if d >=? 10 then (dp, value, false)
          else if value <? Z.quot kmin 10 then (dp, value, true)
          else
            let value := wrap bits (value * 10) in
            if value <? kmin + d then (dp, value, true)
            else
              let value := wrap bits (value - d) in
              if (width >? 0) && (width - 1 =? 0) then (dp', value, false)
              else ParseInt_digits bits dp'
                     (if width >? 0 then width - 1 else width) value
      end
  end.

(** [ParseInt<T>] for a signed [T] of [bits] bits: the pointer after
    the number and the value stored through [vp], or [None] for the
    null pointer (then [*vp] is left as it was). *)
Definition ParseInt (bits : Z) (dp : option string) (width min max : Z)
  : option (string * Z) :=
  match dp with
  | None => None
  | Some dp =>
      let kmin := - 2 ^ (bits - 1) in
      let neg := Ascii.eqb (peek dp) "-" in
      let '(dp, width) :=
        if neg
        then if width <=? 0 then (Some (next dp), width)
             else if negb (width - 1 =? 0) then (Some (next dp), width - 1)
             else (None, width - 1)
        else (Some dp, width) in
      match dp with
      | None => None
      | Some bp =>
          let '(dp, value, erange) := ParseInt_digits bits bp width 0 in
          if negb (ptr_eqb dp bp) && negb erange
             && (neg || negb (value =? kmin))
          then
            if negb neg || negb (value =? 0)
            then
              let value := if negb neg then wrap bits (- value) else value in
              if (min <=? value) && (value <=? max)
              then Some (dp, value)
              else None
            else None
          else None
      end
  end.

(** ** The formatter *)

(** The pointer [F.c_str() + i]. *)
Definition string_from (F : string) (i : nat) : string :=
  substring i (String.length F - i) F.

(** [F.c_str()[i]] *)
Definition char_at (F : string) (i : nat) : ascii :=
  match String.get i F with
  | Some c => c
  | None => NUL
  end.

(** The number of leading characters of [s] that satisfy [p]. *)
Fixpoint span (p : ascii -> bool) (s : string) : nat :=
  match s with
  | EmptyString => O
  | String c s' => if p c then S (span p s') else O
  end.

(** What [Format] has produced and where it stands in the format:
    [[0, pending)] is formatted into [result], [[pending, cur)] is
    pending and [[cur, end)] is unexamined. *)
Record FState : Type := mkFState {
  result : string;
  pending : nat;
  cur : nat
}.

(** The conversion written into the scratch buffer, if the pointer is
    still inside the buffer. *)
Definition in_buf (bp : string) : option string :=
  if Z.of_nat (String.length bp) <=? sizeof_buf then Some bp else None.

(** [while (cp != bp && cp[-1] == '0') --cp;] as the number of
    characters between [bp] and [cp]. *)
Fixpoint strip_zeros (bp : string) : nat :=
  match bp with
  | EmptyString => O
  | String c bp' =>
      match strip_zeros bp' with
      | O => if Ascii.eqb c "0" then O else 1%nat
      | S n => S (S n)
      end
  end.

(** The conversions of the simple specifiers [YmdeHMSzZs]; [None] when
    the pointer leaves the scratch buffer. *)
Definition Format_simple (c : ascii) (bd : Breakdown) (tp : time_point)
  : option string :=
  let ep := EmptyString in
  if Ascii.eqb c "Y" then in_buf (Format64 ep 0 (bd_year bd))
  else if Ascii.eqb c "m" then in_buf (Format02d ep (bd_month bd))
  else if Ascii.eqb c "d" || Ascii.eqb c "e" then
    match in_buf (Format02d ep (bd_day bd)) with
    | Some bp =>
        Some (if Ascii.eqb c "e" && Ascii.eqb (peek bp) "0"
              then String " " (next bp) else bp)
    | None => None
    end
  else if Ascii.eqb c "H" then in_buf (Format02d ep (bd_hour bd))
  else if Ascii.eqb c "M" then in_buf (Format02d ep (bd_minute bd))
  else if Ascii.eqb c "S" then in_buf (Format02d ep (bd_second bd))
  else if Ascii.eqb c "z" then
    in_buf (FormatOffset ep (Z.quot (bd_offset bd) 60) NUL)
  else if Ascii.eqb c "Z" then Some (bd_abbr bd)
  else if Ascii.eqb c "s" then
    in_buf (Format64 ep 0 (duration_cast_seconds (int128 (tp - 0))))
  else Some EmptyString.

(** [%E*S] *)
Definition Format_E_star_S (bd : Breakdown) : option string :=
  let nanoseconds := int64 (bd_subsecond bd) in
  let bp := Format64 EmptyString 9 nanoseconds in
  let kept := strip_zeros bp in
  let zeros := (String.length bp - kept)%nat in
  let bp := if (kept =? 0)%nat then bp else String "." bp in
  let bp := Format02d bp (bd_second bd) in
  match in_buf bp with
  | Some bp => Some (substring 0 (String.length bp - zeros) bp)
  | None => None
  end.

(** [%E#S] with [n] the parsed number of digits. *)
Definition Format_E_n_S (n : Z) (bd : Breakdown) : option string :=
  let bp := EmptyString in
  let bp :=
    if n >? 0
    then
      let n := if n >? kDigits10_64 then kDigits10_64 else n in
      let nanoseconds := int64 (bd_subsecond bd) in
      let bp :=
        Format64 bp n
          (if n >? 9 then int64 (nanoseconds * kExp10 (n - 9))
           else Z.quot nanoseconds (kExp10 (9 - n))) in
      String "." bp
    else bp in
  in_buf (Format02d bp (bd_second bd)).

(** One turn of [while (cur != end)]. *)
Definition Format_step (h : Host) (F : string) (bd : Breakdown) (tm0 : tm)
  (tp : time_point) (st : FState) : option FState :=
  let end_ := String.length F in
  let result := result st in
  let pending := pending st in
  let cur := cur st in
  let flush (back : nat) (result : string) (pending cur : nat) : string :=
    if (cur - back =? pending)%nat then result
    else FormatTM h result
           (substring pending (cur - back - pending) F) tm0 in
  (* Moves cur to the next percent sign. *)
  let start := cur in
  let cur :=
    (cur + span (fun c => negb (Ascii.eqb c "%")) (string_from F cur))%nat in
  (* If the new pending text is all ordinary, copy it out. *)
  let '(result, pending, start) :=
    if negb (cur =? start)%nat && (pending =? start)%nat
    then ((result ++ substring pending (cur - pending) F)%string, cur, cur)
    else (result, pending, start) in
  (* Span the sequential percent signs. *)
  let percent := cur in
  let cur :=
    (cur + span (fun c => Ascii.eqb c "%") (string_from F cur))%nat in
  (* Copy out one percent for every matched pair, then skip those pairs. *)
  let '(result, pending) :=
    if negb (cur =? start)%nat && (pending =? start)%nat
    then
      let escaped := ((cur - pending) / 2)%nat in
      let result := (result ++ substring pending escaped F)%string in
      let pending := (pending + escaped * 2)%nat in
      if negb (pending =? cur)%nat && (cur =? end_)%nat
      then ((result ++ String (char_at F pending) EmptyString)%string,
            S pending)
      else (result, pending)
    else (result, pending) in
  (* Loop unless we have an unescaped percent. *)
  if (cur =? end_)%nat || (((cur - percent) mod 2) =? 0)%nat
  then Some (mkFState result pending cur)
  else
    match strchr "YmdeHMSzZs" (char_at F cur) with
    | Some _ =>
        (* Simple specifiers that we handle ourselves. *)
        let result := flush 1%nat result pending cur in
        match Format_simple (char_at F cur) bd tp with
        | Some s => Some (mkFState (result ++ s)%string (S cur) (S cur))
        | None => None
        end
    | None =>
        (* Loop if there is no E modifier. *)
        if negb (Ascii.eqb (char_at F cur) "E")
        then Some (mkFState result pending cur)
        else
          let cur := S cur in
          if (cur =? end_)%nat then Some (mkFState result pending cur)
          else if Ascii.eqb (char_at F cur) "z" then
            let result := flush 2%nat result pending cur in
            match in_buf (FormatOffset EmptyString
                            (Z.quot (bd_offset bd) 60) ":") with
            | Some s => Some (mkFState (result ++ s)%string (S cur) (S cur))
            | None => None
            end
          else if Ascii.eqb (char_at F cur) "*"
                  && negb (S cur =? end_)%nat
                  && Ascii.eqb (char_at F (S cur)) "S" then
            let result := flush 2%nat result pending cur in
            match Format_E_star_S bd with
            | Some s =>
                Some (mkFState (result ++ s)%string (cur + 2) (cur + 2))
            | None => None
            end
          else if Ascii.eqb (char_at F cur) "4"
                  && negb (S cur =? end_)%nat
                  && Ascii.eqb (char_at F (S cur)) "Y" then
            let result := flush 2%nat result pending cur in
            match in_buf (Format64 EmptyString 4 (bd_year bd)) with
            | Some s =>
                Some (mkFState (result ++ s)%string (cur + 2) (cur + 2))
            | None => None
            end
          else if isdigit (char_at F cur) then
            (* Possibly found %E#S. *)
            match ParseInt 32 (Some (string_from F cur)) 0 0 1024 with
            | Some (np, n) =>
                if Ascii.eqb (peek np) "S"
                then
                  let np := (String.length F - String.length np + 1)%nat in
                  let result := flush 2%nat result pending cur in
                  match Format_E_n_S n bd with
                  | Some s => Some (mkFState (result ++ s)%string np np)
                  | None => None
                  end
                else Some (mkFState result pending cur)
            | None => Some (mkFState result pending cur)
            end
          else Some (mkFState result pending cur)
    end.

Fixpoint Format_loop (fuel : nat) (h : Host) (F : string) (bd : Breakdown)
  (tm0 : tm) (tp : time_point) (st : FState) : option FState :=
  match fuel with
  | O => Some st
  | S fuel =>
      if (cur st =? String.length F)%nat then Some st
      else match Format_step h F bd tm0 tp st with
           | Some st => Format_loop fuel h F bd tm0 tp st
           | None => None
           end
  end.

(** [Format]; [None] when a conversion would write outside the scratch
    buffer. *)
Definition Format (h : Host) (format : string) (tp : time_point)
  (tz : TimeZone) : option string :=
  let bd := If_BreakTime tz tp in
  let tm0 := ToTM bd in
  match Format_loop (String.length format) h format bd tm0 tp
          (mkFState EmptyString O O) with
  | Some st =>
      (* Formats any remaining data. *)
      Some (if (String.length format =? pending st)%nat then result st
            else FormatTM h (result st)
                   (substring (pending st)
                      (String.length format - pending st) format) tm0)
  | None => None
  end.
(** ** The parser ([src/cctz_fmt.cc]) *)

(** [ParseOffset]: the pointer (or [None] for null) and [*offset]. *)
Definition ParseOffset (dp : option string) (sep : ascii) (offset : Z)
  : option string * Z :=
  match dp with
  | None => (None, offset)
  | Some dp =>
      let sign := peek dp in
      let dp := next dp in
      if Ascii.eqb sign "+" || Ascii.eqb sign "-"
      then
        match ParseInt 32 (Some dp) 2 0 23 with
        | Some (ap, hours) =>
            if consumed dp ap =? 2
            then
              let dp := ap in
              let ap :=
                if negb (Ascii.eqb sep NUL) && Ascii.eqb (peek ap) sep
                then next ap else ap in
              let '(dp, minutes) :=
                match ParseInt 32 (Some ap) 2 0 59 with
                | Some (bp, minutes) =>
                    (if consumed ap bp =? 2 then bp else dp, minutes)
                | None => (dp, 0)
                end in
              let offset := int32 (int32 (int32 (hours * 60) + minutes) * 60) in
              (Some dp,
               if Ascii.eqb sign "-" then int32 (- offset) else offset)
            else (None, offset)
        | None => (None, offset)
        end
      else (None, offset)
  end.

(** The run of characters up to the terminator or whitespace. *)
Fixpoint zone_run (dp : string) : string * string :=
  match dp with
  | EmptyString => (EmptyString, dp)
  | String c dp' =>
      if Ascii.eqb c NUL || isspace c then (EmptyString, dp)
      else let '(zone, rest) := zone_run dp' in (String c zone, rest)
  end.

(** [ParseZone]: the pointer and [*zone]. *)
Definition ParseZone (dp : option string) : option string * string :=
  match dp with
  | None => (None, EmptyString)
  | Some dp =>
      let '(zone, rest) := zone_run dp in
      if (String.length zone =? 0)%nat then (None, zone)
      else (Some rest, zone)
  end.

(** The digit loop of [ParseSubSeconds]: the pointer, [v] and [exp]. *)
Fixpoint SubSeconds_digits (dp : string) (v exp : Z) : string * Z * Z :=
  match dp with
  | EmptyString => (dp, v, exp)
  | String c dp' =>
      match strchr kDigits c with
      | None => (dp, v, exp)
      | Some d =>
          if d >=? 10 then (dp, v, exp)
          else if exp <? 9
               then SubSeconds_digits dp' (int64 (int64 (v * 10) + d))
                      (int64 (exp + 1))
               else SubSeconds_digits dp' v exp
      end
  end.

(** [ParseSubSeconds]: the pointer and [*subseconds]. *)
Definition ParseSubSeconds (dp : option string) (subseconds : duration)
  : option string * duration :=
  match dp with
  | None => (None, subseconds)
  | Some dp =>
      if Ascii.eqb (peek dp) "."
      then
        let bp := next dp in
        let '(dp, v, exp) := SubSeconds_digits bp 0 0 in
        if negb (ptr_eqb dp bp)
        then (Some dp, int128 (int64 (v * kExp10 (9 - exp))))
        else (None, subseconds)
      else (Some dp, subseconds)
  end.

(** [p + n] *)
Fixpoint advance (n : nat) (p : string) : string :=
  match n with
  | O => p
  | S n => advance n (next p)
  end.

(** Parses a string into a [std::tm] using [strptime]. *)
Definition ParseTM (h : Host) (dp : option string) (fmt : string) (tm0 : tm)
  : option string * tm :=
  match dp with
  | None => (None, tm0)
  | Some dp =>
      let '(r, tm1) := strptime h dp fmt tm0 in
      (match r with
       | Some n => Some (advance n dp)
       | None => None
       end, tm1)
  end.

Definition set_tm_sec (t : tm) (v : Z) : tm :=
  mkTm v (tm_min t) (tm_hour t) (tm_mday t) (tm_mon t) (tm_year t)
       (tm_wday t) (tm_yday t) (tm_isdst t) (tm_gmtoff t) (tm_zone t).

Definition set_tm_min (t : tm) (v : Z) : tm :=
  mkTm (tm_sec t) v (tm_hour t) (tm_mday t) (tm_mon t) (tm_year t)
       (tm_wday t) (tm_yday t) (tm_isdst t) (tm_gmtoff t) (tm_zone t).

Definition set_tm_hour (t : tm) (v : Z) : tm :=
  mkTm (tm_sec t) (tm_min t) v (tm_mday t) (tm_mon t) (tm_year t)
       (tm_wday t) (tm_yday t) (tm_isdst t) (tm_gmtoff t) (tm_zone t).

Definition set_tm_mday (t : tm) (v : Z) : tm :=
  mkTm (tm_sec t) (tm_min t) (tm_hour t) v (tm_mon t) (tm_year t)
       (tm_wday t) (tm_yday t) (tm_isdst t) (tm_gmtoff t) (tm_zone t).

Definition set_tm_mon (t : tm) (v : Z) : tm :=
  mkTm (tm_sec t) (tm_min t) (tm_hour t) (tm_mday t) v (tm_year t)
       (tm_wday t) (tm_yday t) (tm_isdst t) (tm_gmtoff t) (tm_zone t).

Definition set_tm_year (t : tm) (v : Z) : tm :=
  mkTm (tm_sec t) (tm_min t) (tm_hour t) (tm_mday t) (tm_mon t) v
       (tm_wday t) (tm_yday t) (tm_isdst t) (tm_gmtoff t) (tm_zone t).

(** [std::tm tm = {0}] *)
Definition tm_zero : tm := mkTm 0 0 0 0 0 0 0 0 0 0 "".

(** The local variables of [Parse] that its scan updates. *)
Record PState : Type := mkPState {
  data : option string;
  fmt : string;
  tm_ : tm;
  subseconds : duration;
  offset : Z;
  zone : string;
  twelve_hour : bool;
  afternoon : bool;
  saw_precent_s : bool;
  percent_s_time : Z
}.

Definition with_data_fmt (st : PState) (d : option string) (f : string)
  : PState :=
  mkPState d f (tm_ st) (subseconds st) (offset st) (zone st)
           (twelve_hour st) (afternoon st) (saw_precent_s st)
           (percent_s_time st).

Definition with_tm (st : PState) (t : tm) : PState :=
  mkPState (data st) (fmt st) t (subseconds st) (offset st) (zone st)
           (twelve_hour st) (afternoon st) (saw_precent_s st)
           (percent_s_time st).

Definition with_subseconds (st : PState) (s : duration) : PState :=
  mkPState (data st) (fmt st) (tm_ st) s (offset st) (zone st)
           (twelve_hour st) (afternoon st) (saw_precent_s st)
           (percent_s_time st).

Definition with_offset (st : PState) (o : Z) : PState :=
  mkPState (data st) (fmt st) (tm_ st) (subseconds st) o (zone st)
           (twelve_hour st) (afternoon st) (saw_precent_s st)
           (percent_s_time st).

Definition with_zone (st : PState) (z : string) : PState :=
  mkPState (data st) (fmt st) (tm_ st) (subseconds st) (offset st) z
           (twelve_hour st) (afternoon st) (saw_precent_s st)
           (percent_s_time st).

Definition with_twelve_hour (st : PState) (b : bool) : PState :=
  mkPState (data st) (fmt st) (tm_ st) (subseconds st) (offset st) (zone st)
           b (afternoon st) (saw_precent_s st) (percent_s_time st).

Definition with_afternoon (st : PState) (b : bool) : PState :=
  mkPState (data st) (fmt st) (tm_ st) (subseconds st) (offset st) (zone st)
           (twelve_hour st) b (saw_precent_s st) (percent_s_time st).

Definition with_percent_s (st : PState) (t : Z) : PState :=
  mkPState (data st) (fmt st) (tm_ st) (subseconds st) (offset st) (zone st)
           (twelve_hour st) (afternoon st) true t.

(** [data = ParseInt(data, width, min, max, &field)] on an [int] field
    of [tm]; [adjust] is applied to the field when the pointer is not
    null. *)
Definition parse_field (st : PState) (f : string) (width min max : Z)
  (set : tm -> Z -> tm) (adjust : Z) : PState :=
  match ParseInt 32 (data st) width min max with
  | Some (d, v) =>
      with_tm (with_data_fmt st (Some d) f) (set (tm_ st) (int32 (v - adjust)))
  | None => with_data_fmt st None f
  end.

(** The specifiers left to [strptime]: the text of the specifier runs
    from [percent] to [f]. *)
Definition parse_delegate (h : Host) (st : PState) (percent f : string)
  : PState :=
  let orig_data := data st in
  let spec := between percent f in
  let '(d, t) := ParseTM h orig_data spec (tm_ st) in
  let st := with_tm (with_data_fmt st d f) t in
  match orig_data, d with
  | Some od, Some d' =>
      if String.eqb spec "%p"
      then
        let test_input := String "1" (between od d') in
        let '(_, tmp) := ParseTM h (Some (c_str test_input)) "%I%p" tm_zero in
        with_afternoon st (tm_hour tmp =? 13)
      else st
  | _, _ => st
  end.

(** The body of [case 'E':] up to its [continue] or [break]; [f] points
    after the [E]. *)
Definition parse_E (h : Host) (st : PState) (percent f : string) : PState :=
  if Ascii.eqb (peek f) "z" then
    match data st with
    | Some d =>
        if Ascii.eqb (peek d) "Z"
        then with_offset (with_data_fmt st (Some (next d)) (next f)) 0
        else let '(d', o) := ParseOffset (Some d) ":" (offset st) in
             with_offset (with_data_fmt st d' (next f)) o
    | None =>
        let '(d', o) := ParseOffset None ":" (offset st) in
        with_offset (with_data_fmt st d' (next f)) o
    end
  else if Ascii.eqb (peek f) "*" && Ascii.eqb (peek (next f)) "S" then
    let st := parse_field st f 2 0 60 set_tm_sec 0 in
    let '(d, s) := ParseSubSeconds (data st) (subseconds st) in
    with_subseconds (with_data_fmt st d (next (next f))) s
  else if Ascii.eqb (peek f) "4" && Ascii.eqb (peek (next f)) "Y" then
    let bp := data st in
    match bp, ParseInt 32 bp 4 (-999) 9999 with
    | Some bp, Some (d, v) =>
        if consumed bp d =? 4
        then with_tm (with_data_fmt st (Some d) (next (next f)))
               (set_tm_year (tm_ st) (int32 (v - 1900)))
        else with_tm (with_data_fmt st None (next (next f)))
               (set_tm_year (tm_ st) v)
    | _, _ => with_data_fmt st None (next (next f))
    end
  else
    let fallthrough :=
      let st :=
        if Ascii.eqb (peek f) "c" || Ascii.eqb (peek f) "X"
        then with_twelve_hour st false else st in
      let f := if Ascii.eqb (peek f) NUL then f else next f in
      parse_delegate h st percent f in
    if isdigit (peek f) then
      match ParseInt 32 (Some f) 0 0 1024 with
      | Some (np, n) =>
          if Ascii.eqb (peek np) "S"
          then
            let st := parse_field st f 2 0 60 set_tm_sec 0 in
            let '(d, s) :=
              if n >? 0 then ParseSubSeconds (data st) (subseconds st)
              else (data st, subseconds st) in
            with_subseconds (with_data_fmt st d (next np)) s
          else fallthrough
      | None => fallthrough
      end
    else fallthrough.

(** One turn of [while (data != nullptr && *fmt != '\0')]. *)
Definition Parse_step (h : Host) (st : PState) : PState :=
  let f := fmt st in
  match data st with
  | None => st
  | Some d =>
      if isspace (peek f) then
        with_data_fmt st (Some (skip_spaces d)) (skip_spaces (next f))
      else if negb (Ascii.eqb (peek f) "%") then
        if Ascii.eqb (peek d) (peek f)
        then with_data_fmt st (Some (next d)) (next f)
        else with_data_fmt st None f
      else
        let percent := f in
        let f := next f in
        if Ascii.eqb (peek f) NUL then with_data_fmt st None f
        else
          let c := peek f in
          let f := next f in
          if Ascii.eqb c "Y" then
            parse_field st f 0 (int32 (INT_MIN + 1900)) INT_MAX
              set_tm_year 1900
          else if Ascii.eqb c "m" then parse_field st f 2 1 12 set_tm_mon 1
          else if Ascii.eqb c "d" then parse_field st f 2 1 31 set_tm_mday 0
          else if Ascii.eqb c "H" then
            with_twelve_hour (parse_field st f 2 0 23 set_tm_hour 0) false
          else if Ascii.eqb c "M" then parse_field st f 2 0 59 set_tm_min 0
          else if Ascii.eqb c "S" then parse_field st f 2 0 60 set_tm_sec 0
          else if Ascii.eqb c "I" || Ascii.eqb c "r" then
            parse_delegate h (with_twelve_hour st true) percent f
          else if Ascii.eqb c "R" || Ascii.eqb c "T" || Ascii.eqb c "c"
                  || Ascii.eqb c "X" then
            parse_delegate h (with_twelve_hour st false) percent f
          else if Ascii.eqb c "z" then
            let '(d', o) := ParseOffset (Some d) NUL (offset st) in
            with_offset (with_data_fmt st d' f) o
          else if Ascii.eqb c "Z" then
            let '(d', z) := ParseZone (Some d) in
            with_zone (with_data_fmt st d' f) z
          else if Ascii.eqb c "s" then
            match ParseInt 64 (Some d) 0 INT64_MIN INT64_MAX with
            | Some (d', v) => with_percent_s (with_data_fmt st (Some d') f) v
            | None => with_data_fmt st None f
            end
          else if Ascii.eqb c "E" then parse_E h st percent f
          else if Ascii.eqb c "O" then
            let st :=
              if Ascii.eqb (peek f) "H" then with_twelve_hour st false
              else if Ascii.eqb (peek f) "I" then with_twelve_hour st true
              else st in
            let f := if Ascii.eqb (peek f) NUL then f else next f in
            parse_delegate h st percent f
          else parse_delegate h st percent f
  end.

Fixpoint Parse_loop (fuel : nat) (h : Host) (st : PState) : PState :=
  match fuel with
  | O => st
  | S fuel =>
      match data st with
      | None => st
      | Some _ =>
          if Ascii.eqb (peek (fmt st)) NUL then st
          else Parse_loop fuel h (Parse_step h st)
      end
  end.

(** The state in which [Parse] starts its scan. *)
Definition Parse_init (format input : string) : PState :=
  mkPState
    (Some (skip_spaces (c_str input)))
    (c_str format)
    (mkTm 0 0 0 1 (1 - 1) (1970 - 1900) 4 0 0 0 "")
    0
    INT_MIN
    "UTC"
    false false false 0.

(** Adjust a 12-hour [tm_hour] value if it should be in the afternoon. *)
Definition Parse_afternoon (st : PState) : tm :=
  if twelve_hour st && afternoon st && (tm_hour (tm_ st) <? 12)
  then set_tm_hour (tm_ st) (int32 (tm_hour (tm_ st) + 12))
  else tm_ st.

(** If we saw %z or %Ez the fields are interpreted in UTC and shifted by
    that offset afterwards; otherwise in the zone passed in. *)
Definition Parse_zone (h : Host) (st : PState) (tz : TimeZone)
  : TimeZone * Z :=
  if negb (offset st =? INT_MIN) then (UTCTimeZone h, offset st)
  else (tz, 0).

(** Allows a leap second of 60 to normalize forward to the following
    ":00". *)
Definition Parse_leap_second (tm0 : tm) (offset : Z) (subseconds : duration)
  : tm * Z * duration :=
  if tm_sec tm0 =? 60
  then (set_tm_sec tm0 (int32 (tm_sec tm0 - 1)), int32 (offset - 1), 0)
  else (tm0, offset, subseconds).

(** [tm_year + 1900] as an [int64_t], saturated. *)
Definition Parse_year (tm0 : tm) : Z :=
  let year := tm_year tm0 in
  if year >? int64 (INT64_MAX - 1900) then INT64_MAX
  else int64 (year + 1900).

(** What [Parse] does once the scan has ended; [tpp] is the value held
    by the out parameter on entry, and the result is the value returned
    with the value held by the out parameter on return. *)
Definition Parse_finish (h : Host) (st : PState) (tz : TimeZone)
  (tpp : time_point) : bool * time_point :=
  let tm0 := Parse_afternoon st in
  match data st with
  | None => (false, tpp)
  | Some d =>
      (* Parse() must consume the entire input string. *)
      if negb (Ascii.eqb (peek (skip_spaces d)) NUL) then (false, tpp)
      else if saw_precent_s st
      then (true, seconds (percent_s_time st))
      else
        let '(ptz, offset) := Parse_zone h st tz in
        let '(tm0, offset, subseconds) :=
          Parse_leap_second tm0 offset (subseconds st) in
        let ti :=
          If_MakeTimeInfo ptz (Parse_year tm0) (int32 (tm_mon tm0 + 1))
            (tm_mday tm0) (tm_hour tm0) (tm_min tm0) (tm_sec tm0) in
        (* Parse() fails if any normalization was done. *)
        if normalized ti then (false, tpp)
        else (true, int128 (int128 (pre ti - seconds offset) + subseconds))
  end.

Definition Parse (h : Host) (format input : string) (tz : TimeZone)
  (tpp : time_point) : bool * time_point :=
  let st := Parse_loop (String.length (c_str format)) h
              (Parse_init format input) in
  Parse_finish h st tz tpp.

(** ** A host for examples *)

(** A C library that recognises nothing; the examples below do not
    reach it. *)
Definition null_host : Host :=
  mkHost (fun _ => tm_zero) (fun _ => tm_zero) (fun t => (0, t))
         (fun _ _ _ => EmptyString) (fun _ _ t => (None, t)).

(** A C library whose calendar functions always report 1 January of
    [year]. *)
Definition host_in_year (year : Z) : Host :=
  let t := mkTm 0 0 0 1 0 (year - 1900) 0 0 0 0 "UTC" in
  mkHost (fun _ => t) (fun _ => t) (fun t => (0, t))
         (fun _ _ _ => EmptyString) (fun _ _ t => (None, t)).

(** ** Definitions for the statements *)

(** A date that names a day of the proleptic Gregorian calendar. *)
Definition canonical_date (y m d : Z) : Prop :=
  1 <= m <= 12 /\ 1 <= d <= kDaysPerMonth (IsLeap y) m.

(** The civil (lexicographic) order on dates. *)
Definition civil_lt (y1 m1 d1 y2 m2 d2 : Z) : Prop :=
  y1 < y2 \/ (y1 = y2 /\ (m1 < m2 \/ (m1 = m2 /\ d1 < d2))).

(** The years for which the 64-bit day count does not overflow. *)
Definition kMaxOrdinalYear : Z := 25000000000000000.

Definition ordinal_year (y : Z) : Prop :=
  - kMaxOrdinalYear <= y <= kMaxOrdinalYear.

(** Days from the start of the 400-year cycles to 1 March of year [y]. *)
Definition era_days (y : Z) : Z :=
  (y / 400) * 146097 + (y mod 400) * 365
  + (y mod 400) / 4 - (y mod 400) / 100.

(** Days from 1 March to the first of the month, months counted from
    March. *)
Definition month_days (mp : Z) : Z := (153 * mp + 2) / 5.

(** The instants whose whole seconds fit the 64-bit [time_t]. *)
Definition time_t_instant (tp : time_point) : Prop :=
  INT64_MIN * kNanosPerSecond <= tp < (INT64_MAX + 1) * kNanosPerSecond.

(** The instants that the 128-bit representation holds. *)
Definition in_time_point (tp : time_point) : Prop :=
  - 2 ^ 127 <= tp < 2 ^ 127.

(** The value of a decimal digit character. *)
Definition digit_val (c : ascii) : option Z :=
  let n := Z.of_nat (nat_of_ascii c) in
  if (48 <=? n) && (n <=? 57) then Some (n - 48) else None.

(** What [ParseInt<int>(dp, 2, 0, max, &v)] reads: up to two digits. *)
Definition upto_two_digits (max : Z) (s : string) : option (string * Z) :=
  match s with
  | EmptyString => None
  | String a s1 =>
      match digit_val a with
      | None => None
      | Some x =>
          match digit_val (peek s1) with
          | Some y =>
              if 10 * x + y <=? max then Some (next s1, 10 * x + y) else None
          | None => if x <=? max then Some (s1, x) else None
          end
      end
  end.

(** Exactly two digits and what follows them. *)
Definition two_digits (s : string) : option (Z * string) :=
  match s with
  | String a (String b rest) =>
      match digit_val a, digit_val b with
      | Some x, Some y => Some (10 * x + y, rest)
      | _, _ => None
      end
  | _ => None
  end.

(** The offset in seconds that a sign, hours and minutes denote. *)
Definition offset_of (sign : ascii) (hh mm : Z) : Z :=
  let o := (hh * 60 + mm) * 60 in
  if Ascii.eqb sign "-" then - o else o.

Definition is_sign (c : ascii) : Prop := c = "+"%char \/ c = "-"%char.

(** [n] zeros in front of [s]. *)
Fixpoint zeros (n : nat) (s : string) : string :=
  match n with
  | O => s
  | S n => String "0" (zeros n s)
  end.

(** The number that a string of decimal digits denotes, read from the
    left with [acc] the value of the digits already read. *)
Fixpoint dec_value_from (acc : Z) (s : string) : option Z :=
  match s with
  | EmptyString => Some acc
  | String c s' =>
      match digit_val c with
      | Some d => dec_value_from (acc * 10 + d) s'
      | None => None
      end
  end.

Definition dec_value (s : string) : option Z := dec_value_from 0 s.

(** [D] is the decimal representation of [v], without padding. *)
Definition decimal_of (D : string) (v : Z) : Prop :=
  dec_value D = Some v
  /\ (1 <= String.length D)%nat
  /\ v < 10 ^ Z.of_nat (String.length D)
  /\ (v = 0 /\ String.length D = 1%nat
      \/ 10 ^ (Z.of_nat (String.length D) - 1) <= v).

(** The Breakdowns for which the scratch buffer was sized: a 64-bit
    year and a subsecond below one second. *)
Definition breakdown_in_range (bd : Breakdown) : Prop :=
  in_int64 (bd_year bd) /\ 0 <= bd_subsecond bd < kNanosPerSecond.

(** * Properties *)

Ltac Zify.zify_post_hook ::= Z.to_euclidean_division_equations.

(** ** Machine integers *)

Lemma wrap_small (bits z : Z) :
  0 < bits -> - 2 ^ (bits - 1) <= z < 2 ^ (bits - 1) -> wrap bits z = z.
Proof.
  intros Hb Hz. unfold wrap.
  assert (E : 2 ^ bits = 2 * 2 ^ (bits - 1)).
  { replace bits with (Z.succ (bits - 1)) at 1 by lia.
    rewrite Z.pow_succ_r by lia. reflexivity. }
  rewrite Z.mod_small; lia.
Qed.

Lemma int32_small (z : Z) : in_int32 z -> int32 z = z.
Proof.
  unfold in_int32, INT_MIN, INT_MAX, int32. intros H.
  apply wrap_small; simpl in *; lia.
Qed.

Lemma int64_small (z : Z) : in_int64 z -> int64 z = z.
Proof.
  unfold in_int64, INT64_MIN, INT64_MAX, int64. intros H.
  apply wrap_small; simpl in *; lia.
Qed.

Lemma int128_small (z : Z) : - 2 ^ 127 <= z < 2 ^ 127 -> int128 z = z.
Proof.
  unfold int128. intros H. apply wrap_small; simpl in *; lia.
Qed.

Lemma wrap_range (bits z : Z) :
  0 < bits -> - 2 ^ (bits - 1) <= wrap bits z < 2 ^ (bits - 1).
Proof.
  intros Hb. unfold wrap.
  assert (E : 2 ^ bits = 2 * 2 ^ (bits - 1)).
  { replace bits with (Z.succ (bits - 1)) at 1 by lia.
    rewrite Z.pow_succ_r by lia. reflexivity. }
  assert (0 < 2 ^ (bits - 1)) by (apply Z.pow_pos_nonneg; lia).
  pose proof (Z.mod_pos_bound (z + 2 ^ (bits - 1)) (2 ^ bits)).
  lia.
Qed.

Ltac in_range :=
  unfold in_int32, in_int64, INT_MIN, INT_MAX, INT64_MIN, INT64_MAX; lia.

(** ** The civil calendar *)

Lemma IsLeap_true (y : Z) :
  IsLeap y = true <->
  y mod 4 = 0 /\ (y mod 100 <> 0 \/ y mod 400 = 0).
Proof.
  unfold IsLeap.
  rewrite andb_true_iff, orb_true_iff, negb_true_iff.
  rewrite !Z.eqb_eq, Z.eqb_neq. lia.
Qed.

Lemma month_cases (m : Z) :
  1 <= m <= 12 ->
  m = 1 \/ m = 2 \/ m = 3 \/ m = 4 \/ m = 5 \/ m = 6 \/
  m = 7 \/ m = 8 \/ m = 9 \/ m = 10 \/ m = 11 \/ m = 12.
Proof. lia. Qed.

Lemma kDaysPerMonth_bounds (l : bool) (m : Z) :
  1 <= m <= 12 -> 28 <= kDaysPerMonth l m <= 31.
Proof.
  intros H. destruct (month_cases m H) as
    [-> | [-> | [-> | [-> | [-> | [-> | [-> | [-> | [-> | [-> | [-> | ->]]]]]]]]]]];
    destruct l; cbv; split; discriminate.
Qed.

Lemma DayOrdinal_exact (y m d : Z) :
  ordinal_year y -> 1 <= m <= 12 -> 1 <= d <= 31 ->
  DayOrdinal y m d =
  era_days (y - (if m <=? 2 then 1 else 0))
  + month_days (m + (if m >? 2 then -3 else 9)) + d - 1 - 719468.
Proof.
  unfold ordinal_year, kMaxOrdinalYear. intros Hy Hm Hd.
  unfold DayOrdinal, era_days, month_days.
  set (c := if m <=? 2 then 1 else 0).
  assert (Hc : 0 <= c <= 1) by (subst c; destruct (m <=? 2); lia).
  set (mp := m + (if m >? 2 then -3 else 9)).
  assert (Hmp : 0 <= mp <= 11) by (subst mp; destruct (Z.gtb_spec m 2); lia).
  clearbody c mp.
  rewrite (int64_small (y - c))
    by in_range.
  set (y' := y - c).
  assert (Hy' : - 25000000000000001 <= y' <= 25000000000000000)
    by (subst y'; lia).
  assert (Hera :
    Z.quot (if y' >=? 0 then y' else int64 (y' - 399)) 400 = y' / 400).
  { destruct (Z.geb_spec y' 0).
    - lia.
    - rewrite int64_small
        by in_range.
      lia. }
  rewrite Hera.
  rewrite (int64_small (y' / 400 * 400))
    by in_range.
  assert (Hyoe : y' - y' / 400 * 400 = y' mod 400) by lia.
  rewrite Hyoe.
  assert (Hr : 0 <= y' mod 400 < 400) by (apply Z.mod_pos_bound; lia).
  set (yoe := y' mod 400) in *.
  rewrite (int64_small yoe)
    by in_range.
  rewrite (int32_small yoe)
    by in_range.
  rewrite (int32_small mp)
    by in_range.
  rewrite (int32_small (153 * mp))
    by in_range.
  rewrite (int32_small (153 * mp + 2))
    by in_range.
  assert (Hq : Z.quot (153 * mp + 2) 5 = (153 * mp + 2) / 5) by lia.
  rewrite Hq.
  assert (Hmd : 0 <= (153 * mp + 2) / 5 <= 337) by lia.
  set (md := (153 * mp + 2) / 5) in *.
  rewrite (int32_small (md + d))
    by in_range.
  rewrite (int32_small (md + d - 1))
    by in_range.
  rewrite (int32_small (yoe * 365))
    by in_range.
  assert (Hq4 : Z.quot yoe 4 = yoe / 4) by lia.
  assert (Hq100 : Z.quot yoe 100 = yoe / 100) by lia.
  rewrite Hq4, Hq100.
  assert (H4 : 0 <= yoe / 4 <= 99) by lia.
  assert (H100 : 0 <= yoe / 100 <= 3) by lia.
  rewrite (int32_small (yoe * 365 + yoe / 4))
    by in_range.
  rewrite (int32_small (yoe * 365 + yoe / 4 - yoe / 100 + (md + d - 1)))
    by in_range.
  assert (He : - 62500000000001 <= y' / 400 <= 62500000000000) by lia.
  set (era := y' / 400) in *.
  rewrite (int64_small (era * 146097))
    by in_range.
  rewrite (int64_small (era * 146097 + _))
    by in_range.
  rewrite int64_small
    by in_range.
  lia.
Qed.

Lemma era_days_succ (y : Z) :
  era_days (y + 1) = era_days y + 365 + (if IsLeap (y + 1) then 1 else 0).
Proof.
  unfold era_days.
  assert (R : 0 <= y mod 400 < 400) by (apply Z.mod_pos_bound; lia).
  assert (Q : y = 400 * (y / 400) + y mod 400) by (apply Z.div_mod; lia).
  set (q := y / 400) in *. set (r := y mod 400) in *. clearbody q r.
  assert (L : IsLeap (y + 1) = true <->
              (r + 1) mod 4 = 0 /\ ((r + 1) mod 100 <> 0 \/ (r + 1) mod 400 = 0)).
  { rewrite IsLeap_true. subst y. lia. }
  destruct (Z.eq_dec r 399) as [-> | N].
  - assert (E1 : (y + 1) / 400 = q + 1) by lia.
    assert (E2 : (y + 1) mod 400 = 0) by lia.
    rewrite E1, E2.
    destruct (IsLeap (y + 1)).
    + vm_compute (0 mod 400). vm_compute (399 / 4). vm_compute (399 / 100).
      vm_compute (0 / 4). vm_compute (0 / 100). lia.
    + exfalso. assert (false = true) by (apply L; vm_compute; auto).
      discriminate.
  - assert (E1 : (y + 1) / 400 = q) by lia.
    assert (E2 : (y + 1) mod 400 = r + 1) by lia.
    rewrite E1, E2.
    destruct (IsLeap (y + 1)).
    + destruct L as [L _]. specialize (L eq_refl). lia.
    + assert (N' : ~ ((r + 1) mod 4 = 0 /\
                      ((r + 1) mod 100 <> 0 \/ (r + 1) mod 400 = 0))).
      { intros C. apply L in C. discriminate. }
      lia.
Qed.

Lemma era_days_le (n : nat) (y : Z) :
  era_days y + 365 * Z.of_nat n <= era_days (y + Z.of_nat n).
Proof.
  induction n as [| n IH].
  - change (Z.of_nat 0) with 0. rewrite Z.mul_0_r, !Z.add_0_r. lia.
  - rewrite Nat2Z.inj_succ.
    replace (y + Z.succ (Z.of_nat n)) with (y + Z.of_nat n + 1) by lia.
    rewrite era_days_succ.
    destruct (IsLeap (y + Z.of_nat n + 1)); lia.
Qed.

Lemma era_days_lt (a b : Z) :
  a < b ->
  era_days a + 365 + (if IsLeap (a + 1) then 1 else 0) <= era_days b.
Proof.
  intros H.
  pose proof (era_days_le (Z.to_nat (b - (a + 1))) (a + 1)) as L.
  rewrite Z2Nat.id in L by lia.
  replace (a + 1 + (b - (a + 1))) with b in L by lia.
  rewrite era_days_succ in L. lia.
Qed.

(** Evaluates the closed month-table and month-offset terms. *)
Ltac eval_closed :=
  repeat match goal with
  | H : context [kDaysPerMonth ?l ?m] |- _ =>
      let v := eval vm_compute in (kDaysPerMonth l m) in
      change (kDaysPerMonth l m) with v in H
  | |- context [month_days ?x] =>
      let v := eval vm_compute in (month_days x) in
      change (month_days x) with v
  | |- context [?a + (if ?a >? 2 then -3 else 9)] =>
      let v := eval vm_compute in (a + (if a >? 2 then -3 else 9)) in
      change (a + (if a >? 2 then -3 else 9)) with v
  end.

(** Within one March-based year the day count grows with the month
    and the day. *)
Lemma year_days_lt (l : bool) (m1 d1 m2 d2 : Z) :
  1 <= m1 <= 12 -> 1 <= d1 <= kDaysPerMonth l m1 ->
  1 <= m2 <= 12 -> 1 <= d2 ->
  m1 + (if m1 >? 2 then -3 else 9) < m2 + (if m2 >? 2 then -3 else 9) ->
  month_days (m1 + (if m1 >? 2 then -3 else 9)) + d1
  < month_days (m2 + (if m2 >? 2 then -3 else 9)) + d2.
Proof.
  intros H1 Hd1 H2 Hd2.
  destruct (month_cases m1 H1) as
    [-> | [-> | [-> | [-> | [-> | [-> | [-> | [-> | [-> | [-> | [-> | ->]]]]]]]]]]];
  destruct (month_cases m2 H2) as
    [-> | [-> | [-> | [-> | [-> | [-> | [-> | [-> | [-> | [-> | [-> | ->]]]]]]]]]]];
  destruct l; eval_closed; lia.
Qed.

(** The last day of a March-based year is at most its length away from
    1 March. *)
Lemma year_days_last (y m d : Z) :
  1 <= m <= 12 -> 1 <= d <= kDaysPerMonth (IsLeap y) m ->
  month_days (m + (if m >? 2 then -3 else 9)) + d - 1
  <= 364 + (if IsLeap (y - (if m <=? 2 then 1 else 0) + 1) then 1 else 0).
Proof.
  intros Hm Hd.
  destruct (month_cases m Hm) as
    [-> | [-> | [-> | [-> | [-> | [-> | [-> | [-> | [-> | [-> | [-> | ->]]]]]]]]]]];
  cbv [Z.gtb Z.leb Z.compare Pos.compare Pos.compare_cont];
  try replace (y - 1 + 1) with y by lia;
  destruct (IsLeap y); eval_closed;
  try destruct (IsLeap _); lia.
Qed.

Lemma DayOrdinal_lt (y1 m1 d1 y2 m2 d2 : Z) :
  ordinal_year y1 -> ordinal_year y2 ->
  canonical_date y1 m1 d1 -> canonical_date y2 m2 d2 ->
  civil_lt y1 m1 d1 y2 m2 d2 ->
  DayOrdinal y1 m1 d1 < DayOrdinal y2 m2 d2.
Proof.
  intros O1 O2 [M1 D1] [M2 D2] L.
  pose proof (kDaysPerMonth_bounds (IsLeap y1) m1 M1) as B1.
  pose proof (kDaysPerMonth_bounds (IsLeap y2) m2 M2) as B2.
  rewrite !DayOrdinal_exact by (assumption || lia).
  pose proof (year_days_last y1 m1 d1 M1 D1) as Last.
  set (Y1 := y1 - (if m1 <=? 2 then 1 else 0)) in *.
  set (Y2 := y2 - (if m2 <=? 2 then 1 else 0)) in *.
  set (p1 := m1 + (if m1 >? 2 then -3 else 9)) in *.
  set (p2 := m2 + (if m2 >? 2 then -3 else 9)) in *.
  assert (P2 : 0 <= month_days p2).
  { unfold month_days, p2. destruct (Z.gtb_spec m2 2); lia. }
  assert (C : Y1 < Y2 \/ (Y1 = Y2 /\ (p1 < p2 \/ (p1 = p2 /\ d1 < d2)))).
  { unfold civil_lt in L. subst Y1 Y2 p1 p2.
    destruct (Z.leb_spec m1 2), (Z.leb_spec m2 2),
             (Z.gtb_spec m1 2), (Z.gtb_spec m2 2); lia. }
  destruct C as [C | [E [C | [E' C]]]].
  - pose proof (era_days_lt Y1 Y2 C). lia.
  - rewrite E.
    assert (YD : month_days p1 + d1 < month_days p2 + d2).
    { destruct (Z.eq_dec y1 y2) as [Ey | Ny].
      - subst y2. apply (year_days_lt (IsLeap y1)); (assumption || lia).
      - (* the two dates lie in consecutive calendar years, so the
           earlier one is not in February *)
        assert (m1 > 2 /\ m2 <= 2) as [G1 G2].
        { subst Y1 Y2. destruct (Z.leb_spec m1 2), (Z.leb_spec m2 2);
            unfold civil_lt in L; lia. }
        assert (kDaysPerMonth (IsLeap y1) m1 = kDaysPerMonth false m1) as K.
        { destruct (month_cases m1 M1) as
            [-> | [-> | [-> | [-> | [-> | [-> | [-> | [-> | [-> | [-> | [-> | ->]]]]]]]]]]];
            try lia; destruct (IsLeap y1); reflexivity. }
        rewrite K in D1.
        apply (year_days_lt false); (assumption || lia). }
    lia.
  - rewrite E, E'. lia.
Qed.

(** C2, as amended.  [DayOrdinal(1970,1,1) = 0]; for two canonical
    dates in civil order whose years are within the range where the
    64-bit day count does not overflow, [DayOrdinal] is strictly
    increasing; and [DayOrdinal(2000,3,1) - DayOrdinal(2000,2,1) = 29]. *)
Theorem C2_DayOrdinal_monotone :
  DayOrdinal 1970 1 1 = 0
  /\ (forall y1 m1 d1 y2 m2 d2,
        ordinal_year y1 -> ordinal_year y2 ->
        canonical_date y1 m1 d1 -> canonical_date y2 m2 d2 ->
        civil_lt y1 m1 d1 y2 m2 d2 ->
        DayOrdinal y1 m1 d1 < DayOrdinal y2 m2 d2)
  /\ DayOrdinal 2000 3 1 - DayOrdinal 2000 2 1 = 29.
Proof.
  split; [vm_compute; reflexivity |].
  split; [| vm_compute; reflexivity].
  intros. apply DayOrdinal_lt; assumption.
Qed.

(** C2, the claim without a bound on the year: year 30000000000000000
    comes after 1970 and has a smaller day ordinal. *)
Lemma C2_counterexample :
  ~ (forall y1 m1 d1 y2 m2 d2,
       canonical_date y1 m1 d1 -> canonical_date y2 m2 d2 ->
       civil_lt y1 m1 d1 y2 m2 d2 ->
       DayOrdinal y1 m1 d1 < DayOrdinal y2 m2 d2).
Proof.
  intros H.
  specialize (H 1970 1 1 30000000000000000 1 1).
  assert (C : DayOrdinal 30000000000000000 1 1 < DayOrdinal 1970 1 1)
    by (vm_compute; reflexivity).
  apply (Z.lt_irrefl (DayOrdinal 1970 1 1)).
  eapply Z.lt_trans; [apply H | exact C].
  - split; [lia | vm_compute; split; discriminate].
  - split; [lia | vm_compute; split; discriminate].
  - left. lia.
Qed.

Lemma C2_DayOrdinal_monotone_witness :
  DayOrdinal 2000 2 29 < DayOrdinal 2000 3 1.
Proof.
  apply (proj1 (proj2 C2_DayOrdinal_monotone)).
  - unfold ordinal_year, kMaxOrdinalYear. lia.
  - unfold ordinal_year, kMaxOrdinalYear. lia.
  - split; [lia | vm_compute; split; discriminate].
  - split; [lia | vm_compute; split; discriminate].
  - right. split; [reflexivity | left; lia].
Defined.

(** ** The split of an instant in [BreakTime] *)

Lemma BreakTime_split_floor (tp : time_point) :
  time_t_instant tp ->
  BreakTime_split tp = (tp / kNanosPerSecond, tp mod kNanosPerSecond).
Proof.
  unfold time_t_instant, INT64_MIN, INT64_MAX, kNanosPerSecond.
  intros H.
  unfold BreakTime_split, ToUnixSeconds, duration_cast_seconds,
    FromUnixSeconds, seconds, kNanosPerSecond.
  rewrite Z.sub_0_r.
  rewrite (int128_small tp) by lia.
  rewrite (int64_small (Z.quot tp 1000000000)) by in_range.
  set (q := Z.quot tp 1000000000).
  assert (Hq : - 2 ^ 63 <= q < 2 ^ 63) by (subst q; lia).
  assert (Hr : tp - q * 1000000000 = Z.rem tp 1000000000) by (subst q; lia).
  assert (Hb : - 1000000000 < Z.rem tp 1000000000 < 1000000000) by lia.
  rewrite (int128_small (q * 1000000000)) by lia.
  rewrite Z.add_0_l.
  rewrite (int128_small (q * 1000000000)) by lia.
  rewrite Hr.
  rewrite (int128_small (Z.rem tp 1000000000)) by lia.
  destruct (Z.ltb_spec (Z.rem tp 1000000000) 0) as [N | N].
  - assert (Hq' : - 2 ^ 63 < q) by (subst q; lia).
    rewrite (int64_small (q - 1)) by in_range.
    rewrite Z.mul_1_l.
    rewrite (int128_small 1000000000) by lia.
    rewrite int128_small by lia.
    f_equal; subst q; lia.
  - f_equal; subst q; lia.
Qed.

(** For every instant whose whole seconds fit the 64-bit [time_t],
    negative ones included, [BreakTime] splits it by floor division
    into seconds [t] and a subsecond in [0, 1 s) with [t] seconds plus
    the subsecond equal to the instant, and the Breakdown carries that
    subsecond. *)
Lemma BreakTime_floor_split_in_range (h : Host) (z : TimeZoneLibC)
  (tp : time_point) :
  time_t_instant tp ->
  let '(t, subsecond) := BreakTime_split tp in
  t = tp / kNanosPerSecond
  /\ 0 <= subsecond < kNanosPerSecond
  /\ t * kNanosPerSecond + subsecond = tp
  /\ bd_subsecond (BreakTime h z tp) = subsecond.
Proof.
  intros H.
  unfold BreakTime.
  rewrite (BreakTime_split_floor tp H).
  unfold kNanosPerSecond.
  repeat split; try lia.
  destruct (local_ z); reflexivity.
Qed.

Lemma BreakTime_floor_split_in_range_witness :
  let '(t, subsecond) := BreakTime_split (-1) in
  t = (-1) / kNanosPerSecond
  /\ 0 <= subsecond < kNanosPerSecond
  /\ t * kNanosPerSecond + subsecond = -1
  /\ bd_subsecond
       (BreakTime null_host (TimeZoneLibC_new "UTC") (-1)) = subsecond.
Proof.
  apply (BreakTime_floor_split_in_range null_host (TimeZoneLibC_new "UTC")
           (-1)).
  unfold time_t_instant, INT64_MIN, INT64_MAX, kNanosPerSecond. lia.
Defined.

(** C6.  [BreakTime] does not split every instant that the 128-bit
    representation holds into seconds and a subsecond in [0, 1 s): at
    2^63 seconds after the epoch [ToUnixSeconds] narrows the second
    count to [INT64_MIN], the negative-remainder step is not taken,
    and the Breakdown carries a subsecond of 2^64 seconds, whatever
    the zone and the C library. *)
Theorem C6_BreakTime_subsecond_beyond_time_t (h : Host) (z : TimeZoneLibC) :
  let tp := 2 ^ 63 * kNanosPerSecond in
  in_time_point tp
  /\ ToUnixSeconds tp = INT64_MIN
  /\ BreakTime_split tp = (INT64_MIN, 2 ^ 64 * kNanosPerSecond)
  /\ bd_subsecond (BreakTime h z tp) = 2 ^ 64 * kNanosPerSecond
  /\ ~ (0 <= bd_subsecond (BreakTime h z tp) < kNanosPerSecond).
Proof.
  cbv zeta.
  assert (S : BreakTime_split (2 ^ 63 * kNanosPerSecond)
              = (INT64_MIN, 2 ^ 64 * kNanosPerSecond))
    by (vm_compute; reflexivity).
  assert (B : bd_subsecond (BreakTime h z (2 ^ 63 * kNanosPerSecond))
              = 2 ^ 64 * kNanosPerSecond).
  { unfold BreakTime. rewrite S. destruct (local_ z); reflexivity. }
  split; [unfold in_time_point, kNanosPerSecond; lia |].
  split; [vm_compute; reflexivity |].
  split; [exact S |].
  split; [exact B |].
  rewrite B. unfold kNanosPerSecond. lia.
Qed.

(** ** Normalization in [MakeTimeInfo] *)

Lemma NormalizeField_in_range (base val : Z) (n : bool) :
  0 <= val < base -> NormalizeField base val n = (0, val, n).
Proof.
  intros H. unfold NormalizeField.
  assert (Q : Z.quot val base = 0) by (apply Z.quot_small; lia).
  assert (R : Z.rem val base = val) by (apply Z.rem_small; lia).
  rewrite Q, R.
  destruct (Z.ltb_spec val 0); [lia |]. reflexivity.
Qed.

(** The flag is raised by [NormalizeField] alone: when the second,
    minute, hour and month are in range it stays down whatever the day
    is, although the day loops carry into the month and the year. *)
Lemma NormalizeCivil_day_unflagged (year mon day hour min sec : Z) :
  0 <= sec < 60 -> 0 <= min < 60 -> 0 <= hour < 24 -> 1 <= mon <= 12 ->
  in_int32 day ->
  snd (NormalizeCivil year mon day hour min sec) = false.
Proof.
  intros Hs Hm Hh Hmo Hd. unfold NormalizeCivil.
  rewrite (NormalizeField_in_range 60 sec) by assumption.
  rewrite Z.add_0_r, (int32_small min) by in_range.
  rewrite (NormalizeField_in_range 60 min) by assumption.
  rewrite Z.add_0_r, (int32_small hour) by in_range.
  rewrite (NormalizeField_in_range 24 hour) by assumption.
  rewrite Z.add_0_r, (int32_small day) by assumption.
  rewrite (int32_small (mon - 1)) by in_range.
  rewrite (NormalizeField_in_range 12 (mon - 1)) by lia.
  destruct (years_forward _ _ _ _) as [y1 d1].
  destruct (years_backward _ _ _) as [y2 d2].
  destruct (months_forward _ _ _ _ _) as [[y3 m3] d3].
  reflexivity.
Qed.

(** C1.  In the UTC backend the flag does not follow a carry out of the
    day: [MakeTimeInfo(2013,10,32,8,30,0)] is the instant of November 1,
    08:30:00, and its [normalized] flag is false. *)
Theorem C1_day_carry_leaves_normalized_false (h : Host) :
  NormalizeCivil 2013 10 32 8 30 0 = (2013, 11, 1, 8, 30, 0, false)
  /\ MakeTimeInfo h (TimeZoneLibC_new "UTC") 2013 10 32 8 30 0
     = MakeTimeInfo h (TimeZoneLibC_new "UTC") 2013 11 1 8 30 0
  /\ normalized (MakeTimeInfo h (TimeZoneLibC_new "UTC") 2013 10 32 8 30 0)
     = false.
Proof.
  repeat split; vm_compute; reflexivity.
Qed.

(** ** The loops of [MakeTimeInfo] run to their end *)

Lemma kDaysPerYear_bounds (l : bool) : 365 <= kDaysPerYear l <= 366.
Proof. destruct l; cbv; split; discriminate. Qed.

Lemma int32_in_int32 (z : Z) : in_int32 (int32 z).
Proof.
  unfold in_int32, INT_MIN, INT_MAX, int32.
  pose proof (wrap_range 32 z ltac:(lia)) as R.
  change (2 ^ (32 - 1)) with (2 ^ 31) in R. lia.
Qed.

Lemma NormalizeField_range (base val : Z) (n : bool) :
  12 <= base <= 60 -> in_int32 val ->
  let '(_, val', _) := NormalizeField base val n in 0 <= val' < base.
Proof.
  unfold in_int32, INT_MIN, INT_MAX. intros B I. unfold NormalizeField.
  destruct (Z.ltb_spec (Z.rem val base) 0) as [N | P].
  - rewrite (int32_small (Z.rem val base + base)) by in_range. lia.
  - lia.
Qed.

(** When the forward loop over the years stops, the day is within the
    year. *)
Lemma years_forward_exit (fuel : nat) :
  forall year day,
    in_int32 day -> day < 365 * (Z.of_nat fuel + 1) ->
    let '(y', d') :=
      years_forward fuel year day (kDaysPerYear (IsLeap year)) in
    d' <= kDaysPerYear (IsLeap y') /\ in_int32 d' /\ (d' <= 0 -> d' = day).
Proof.
  unfold in_int32, INT_MIN, INT_MAX.
  induction fuel as [| fuel IH]; intros year day I F.
  - cbn [years_forward].
    pose proof (kDaysPerYear_bounds (IsLeap year)). lia.
  - cbn [years_forward].
    pose proof (kDaysPerYear_bounds (IsLeap year)) as B.
    destruct (Z.gtb_spec day (kDaysPerYear (IsLeap year))) as [G | L].
    + rewrite (int32_small (day - _)) by in_range.
      specialize (IH (int64 (year + 1))
                    (day - kDaysPerYear (IsLeap year))).
      destruct (years_forward fuel _ _ _) as [y' d'].
      destruct IH as (H1 & H2 & H3); [lia | lia |].
      split; [exact H1 |]. split; [exact H2 |]. lia.
    + lia.
Qed.

(** When the backward loop over the years stops, the day is positive. *)
Lemma years_backward_exit (fuel : nat) :
  forall year day,
    in_int32 day -> - day < 365 * Z.of_nat fuel ->
    let '(y', d') := years_backward fuel year day in
    1 <= d'
    /\ (day <= 0 -> d' <= kDaysPerYear (IsLeap y'))
    /\ (1 <= day -> d' = day /\ y' = year).
Proof.
  unfold in_int32, INT_MIN, INT_MAX.
  induction fuel as [| fuel IH]; intros year day I F.
  - cbn [years_backward]. lia.
  - cbn [years_backward].
    destruct (Z.leb_spec day 0) as [L | G]; [| lia].
    pose proof (kDaysPerYear_bounds (IsLeap (int64 (year - 1)))) as B.
    rewrite (int32_small (day + _)) by in_range.
    specialize (IH (int64 (year - 1))
                  (day + kDaysPerYear (IsLeap (int64 (year - 1))))).
    destruct (years_backward fuel _ _) as [y' d'].
    destruct IH as (H1 & H2 & H3); [lia | lia |].
    split; [exact H1 |]. split; [| lia].
    intros _.
    destruct (Z.le_gt_cases
                (day + kDaysPerYear (IsLeap (int64 (year - 1)))) 0)
      as [N | P].
    + apply H2. exact N.
    + destruct H3 as [-> ->]; lia.
Qed.

(** When the loop over the months stops, the date is canonical. *)
Lemma months_forward_exit (fuel : nat) :
  forall year mon day,
    1 <= mon <= 12 -> 1 <= day <= INT_MAX ->
    day < 28 * (Z.of_nat fuel + 1) ->
    let '(y', m', d') := months_forward fuel year mon day (IsLeap year) in
    canonical_date y' m' d'.
Proof.
  unfold canonical_date, INT_MAX.
  induction fuel as [| fuel IH]; intros year mon day M D F.
  - cbn [months_forward].
    pose proof (kDaysPerMonth_bounds (IsLeap year) mon M). lia.
  - cbn [months_forward].
    pose proof (kDaysPerMonth_bounds (IsLeap year) mon M) as B.
    destruct (Z.gtb_spec day (kDaysPerMonth (IsLeap year) mon)) as [G | L];
      [| lia].
    rewrite (int32_small (day - _)) by in_range.
    rewrite (int32_small (mon + 1)) by in_range.
    destruct (Z.gtb_spec (mon + 1) 12) as [W | NW].
    + apply IH; lia.
    + apply IH; lia.
Qed.

(** The UTC branch of [MakeTimeInfo] leaves every field in its range,
    for all 32-bit inputs: none of its loops is cut short. *)
Lemma NormalizeCivil_canonical (year mon day hour min sec : Z) :
  in_int32 sec ->
  let '(y, m, d, h, mi, s, _) := NormalizeCivil year mon day hour min sec in
  0 <= s < 60 /\ 0 <= mi < 60 /\ 0 <= h < 24 /\ canonical_date y m d.
Proof.
  intros Isec. unfold NormalizeCivil.
  pose proof (NormalizeField_range 60 sec false ltac:(lia) Isec) as Hs.
  destruct (NormalizeField 60 sec false) as [[c1 s] n1].
  pose proof (NormalizeField_range 60 (int32 (min + c1)) n1 ltac:(lia)
                (int32_in_int32 _)) as Hm.
  destruct (NormalizeField 60 (int32 (min + c1)) n1) as [[c2 mi] n2].
  pose proof (NormalizeField_range 24 (int32 (hour + c2)) n2 ltac:(lia)
                (int32_in_int32 _)) as Hh.
  destruct (NormalizeField 24 (int32 (hour + c2)) n2) as [[c3 h] n3].
  pose proof (NormalizeField_range 12 (int32 (mon - 1)) n3 ltac:(lia)
                (int32_in_int32 _)) as Hmo.
  destruct (NormalizeField 12 (int32 (mon - 1)) n3) as [[c4 m0] n4].
  rewrite (int32_small (m0 + 1)) by in_range.
  set (d0 := int32 (day + c3)).
  pose proof (int32_in_int32 (day + c3)) as Hd0. fold d0 in Hd0.
  set (y0 := int64 (int64 (year + c4) + (if m0 + 1 >? 2 then 1 else 0))).
  pose proof (years_forward_exit (Z.to_nat (Z.quot d0 365)) y0 d0 Hd0) as F.
  destruct (years_forward _ y0 d0 _) as [y1 d1].
  destruct F as (F1 & F2 & F3).
  { unfold in_int32, INT_MIN, INT_MAX in Hd0. lia. }
  pose proof (years_backward_exit (S (Z.to_nat (Z.quot (- d1) 365))) y1 d1
                F2) as B.
  destruct (years_backward _ y1 d1) as [y2 d2].
  destruct B as (B1 & B2 & B3).
  { unfold in_int32, INT_MIN, INT_MAX in F2. lia. }
  pose proof (kDaysPerYear_bounds (IsLeap y1)).
  pose proof (kDaysPerYear_bounds (IsLeap y2)).
  assert (D2 : 1 <= d2 <= 366) by lia.
  set (y3 := int64 (y2 - (if m0 + 1 >? 2 then 1 else 0))).
  pose proof (months_forward_exit (Z.to_nat (Z.quot d2 28)) y3 (m0 + 1) d2)
    as M.
  destruct (months_forward _ y3 (m0 + 1) d2 _) as [[y4 m4] d4].
  split; [exact Hs |]. split; [exact Hm |]. split; [exact Hh |].
  apply M; unfold INT_MAX; lia.
Qed.

(** ** The integer consumer *)

Lemma strchr_kDigits (c : ascii) :
  strchr kDigits c =
  if Ascii.eqb c NUL then Some 10 else digit_val c.
Proof.
  destruct c as [[] [] [] [] [] [] [] []]; reflexivity.
Qed.

Lemma digit_val_range (c : ascii) (d : Z) :
  digit_val c = Some d -> 0 <= d <= 9.
Proof.
  unfold digit_val.
  destruct (Z.leb_spec 48 (Z.of_nat (nat_of_ascii c)));
  destruct (Z.leb_spec (Z.of_nat (nat_of_ascii c)) 57);
  simpl; intros E; inversion E; lia.
Qed.

Lemma digit_val_not_NUL (c : ascii) (d : Z) :
  digit_val c = Some d -> Ascii.eqb c NUL = false.
Proof.
  destruct (Ascii.eqb_spec c NUL) as [-> |]; [discriminate | reflexivity].
Qed.

Lemma digit_val_not_minus (c : ascii) (d : Z) :
  digit_val c = Some d -> Ascii.eqb c "-" = false.
Proof.
  destruct (Ascii.eqb_spec c "-") as [-> |]; [discriminate | reflexivity].
Qed.

Lemma strchr_digit (c : ascii) (d : Z) :
  digit_val c = Some d -> strchr kDigits c = Some d.
Proof.
  intros E. rewrite strchr_kDigits, (digit_val_not_NUL c d E). exact E.
Qed.

Lemma strchr_nondigit (c : ascii) :
  digit_val c = None ->
  strchr kDigits c = None \/ strchr kDigits c = Some 10.
Proof.
  intros E. rewrite strchr_kDigits, E.
  destruct (Ascii.eqb c NUL); auto.
Qed.

(** A turn of the digit loop of [ParseInt<int>] on a digit, away from
    the overflow guards. *)
Lemma ParseInt_digits_digit (c : ascii) (dp : string) (width value d : Z) :
  digit_val c = Some d -> - 100000000 <= value <= 0 ->
  ParseInt_digits 32 (String c dp) width value =
  if (width >? 0) && (width - 1 =? 0) then (dp, value * 10 - d, false)
  else ParseInt_digits 32 dp (if width >? 0 then width - 1 else width)
         (value * 10 - d).
Proof.
  intros E V. pose proof (digit_val_range c d E) as R.
  cbn [ParseInt_digits]. rewrite (strchr_digit c d E).
  destruct (Z.geb_spec d 10); [lia |].
  change (Z.quot (- 2 ^ (32 - 1)) 10) with (-214748364).
  change (- 2 ^ (32 - 1)) with (-2147483648).
  change (wrap 32) with int32.
  destruct (Z.ltb_spec value (-214748364)); [lia |].
  rewrite (int32_small (value * 10)) by in_range.
  destruct (Z.ltb_spec (value * 10) (-2147483648 + d)); [lia |].
  rewrite (int32_small (value * 10 - d)) by in_range.
  reflexivity.
Qed.

Lemma ParseInt_digits_nondigit (bits : Z) (dp : string) (width value : Z) :
  digit_val (peek dp) = None ->
  ParseInt_digits bits dp width value = (dp, value, false).
Proof.
  intros E. destruct dp as [| c dp]; [reflexivity |].
  cbn [ParseInt_digits]. cbn [peek] in E.
  destruct (strchr_nondigit c E) as [-> | ->]; reflexivity.
Qed.

Lemma ptr_eqb_refl (s : string) : ptr_eqb s s = true.
Proof. unfold ptr_eqb. apply Nat.eqb_refl. Qed.

Lemma ptr_eqb_shorter (s t : string) :
  (String.length s < String.length t)%nat -> ptr_eqb s t = false.
Proof. unfold ptr_eqb. intros H. apply Nat.eqb_neq. lia. Qed.

Lemma peek_digit (s : string) (d : Z) :
  digit_val (peek s) = Some d -> s = String (peek s) (next s).
Proof.
  destruct s; [discriminate | reflexivity].
Qed.

Lemma ParseInt_two (max : Z) (s : string) :
  0 <= max ->
  ParseInt 32 (Some s) 2 0 max = upto_two_digits max s.
Proof.
  intros Hmax. destruct s as [| a s1]; [reflexivity |].
  unfold ParseInt. cbn [peek upto_two_digits].
  change (- 2 ^ (32 - 1)) with (-2147483648).
  destruct (Ascii.eqb_spec a "-") as [-> | Na].
  - (* a minus sign: at most one digit follows, and a negative value
       is out of range *)
    cbn [Z.leb Z.compare negb Z.sub Z.eqb Z.add Z.opp Z.pos_sub Pos.pred_double
         next orb andb].
    change (digit_val "-") with (@None Z). cbn iota.
    destruct (digit_val (peek s1)) as [x |] eqn:E.
    + rewrite (peek_digit s1 x E).
      rewrite (ParseInt_digits_digit _ _ 1 0 x E) by lia.
      cbn [Z.gtb Z.compare Z.sub Z.eqb Z.add Z.opp Z.pos_sub andb].
      pose proof (digit_val_range _ _ E).
      rewrite ptr_eqb_shorter by (cbn [String.length]; lia).
      cbn [negb andb orb].
      destruct (Z.eqb_spec (0 * 10 - x) 0); [reflexivity |].
      cbn [negb].
      destruct (Z.leb_spec 0 (0 * 10 - x)); [lia | reflexivity].
    + rewrite (ParseInt_digits_nondigit 32 s1 1 0 E).
      rewrite ptr_eqb_refl. reflexivity.
  - destruct (digit_val a) as [x |] eqn:E.
    + rewrite (ParseInt_digits_digit _ _ 2 0 x E) by lia.
      cbn [Z.gtb Z.compare Z.sub Z.eqb Z.add Z.opp Z.pos_sub andb].
      pose proof (digit_val_range _ _ E) as Rx.
      destruct (digit_val (peek s1)) as [y |] eqn:E1.
      * rewrite (peek_digit s1 y E1) at 1.
        rewrite (ParseInt_digits_digit _ _ 1 _ y E1) by lia.
        cbn [Z.gtb Z.compare Z.sub Z.eqb Z.add Z.opp Z.pos_sub andb].
        pose proof (digit_val_range _ _ E1) as Ry.
        rewrite ptr_eqb_shorter
          by (rewrite (peek_digit s1 y E1); cbn [String.length next]; lia).
        destruct (Z.eqb_spec ((0 * 10 - x) * 10 - y) (-2147483648)); [lia |].
        cbn [negb andb orb].
        change (wrap 32) with int32.
        rewrite int32_small by in_range.
        replace (- ((0 * 10 - x) * 10 - y)) with (10 * x + y) by lia.
        destruct (Z.leb_spec 0 (10 * x + y)); [| lia].
        reflexivity.
      * rewrite (ParseInt_digits_nondigit 32 s1 _ _ E1).
        rewrite ptr_eqb_shorter by (cbn [String.length]; lia).
        destruct (Z.eqb_spec (0 * 10 - x) (-2147483648)); [lia |].
        cbn [negb andb orb].
        change (wrap 32) with int32.
        rewrite int32_small by in_range.
        replace (- (0 * 10 - x)) with x by lia.
        destruct (Z.leb_spec 0 x); [| lia].
        reflexivity.
    + rewrite ParseInt_digits_nondigit by exact E.
      rewrite ptr_eqb_refl. reflexivity.
Qed.

Lemma two_digits_upto (max : Z) (s rest : string) (v : Z) :
  two_digits s = Some (v, rest) ->
  upto_two_digits max s = (if v <=? max then Some (rest, v) else None)
  /\ consumed s rest = 2 /\ 0 <= v <= 99.
Proof.
  destruct s as [| a [| b r]]; try discriminate.
  cbn [two_digits upto_two_digits peek next].
  destruct (digit_val a) as [x |] eqn:Ea; [| discriminate].
  destruct (digit_val b) as [y |] eqn:Eb; [| discriminate].
  intros E.
  assert (Hv : v = 10 * x + y) by congruence.
  assert (Hr : rest = r) by congruence.
  subst v rest. clear E.
  pose proof (digit_val_range _ _ Ea). pose proof (digit_val_range _ _ Eb).
  repeat split; try reflexivity; try lia.
  unfold consumed. cbn [String.length]. lia.
Qed.

Lemma upto_two_digits_consumed (max : Z) (s ap : string) (v : Z) :
  upto_two_digits max s = Some (ap, v) ->
  (consumed s ap =? 2) = true ->
  two_digits s = Some (v, ap) /\ v <= max.
Proof.
  assert (One : forall a s1, (consumed (String a s1) s1 =? 2) = false).
  { intros a s1. unfold consumed. cbn [String.length].
    apply Z.eqb_neq. lia. }
  destruct s as [| a [| b r]];
    cbn [upto_two_digits two_digits peek next]; [discriminate | |];
    (destruct (digit_val a) as [x |] eqn:Ea; [| discriminate]).
  - change (digit_val NUL) with (@None Z). cbv iota.
    destruct (x <=? max); [| discriminate].
    intros E C. assert (Hr : ap = EmptyString) by congruence. subst ap.
    rewrite One in C. discriminate.
  - destruct (digit_val b) as [y |] eqn:Eb.
    + destruct (Z.leb_spec (10 * x + y) max); [| discriminate].
      intros E _.
      assert (Hv : v = 10 * x + y) by congruence.
      assert (Hr : ap = r) by congruence.
      subst v ap. split; [reflexivity | assumption].
    + destruct (x <=? max); [| discriminate].
      intros E C. assert (Hr : ap = String b r) by congruence. subst ap.
      rewrite One in C. discriminate.
Qed.

Lemma upto_two_digits_nondigit (max : Z) (s : string) :
  digit_val (peek s) = None -> upto_two_digits max s = None.
Proof.
  destruct s as [| a s1]; [reflexivity |].
  cbn [peek upto_two_digits]. intros ->. reflexivity.
Qed.

(** [ParseOffset] without a separator, as it reads the digits. *)
Lemma ParseOffset_NUL (dp : string) (off : Z) :
  ParseOffset (Some dp) NUL off =
  if Ascii.eqb (peek dp) "+" || Ascii.eqb (peek dp) "-"
  then
    match upto_two_digits 23 (next dp) with
    | Some (ap, hours) =>
        if consumed (next dp) ap =? 2
        then
          let '(dp', minutes) :=
            match upto_two_digits 59 ap with
            | Some (bp, minutes) =>
                (if consumed ap bp =? 2 then bp else ap, minutes)
            | None => (ap, 0)
            end in
          let offset := int32 (int32 (int32 (hours * 60) + minutes) * 60) in
          (Some dp',
           if Ascii.eqb (peek dp) "-" then int32 (- offset) else offset)
        else (None, off)
    | None => (None, off)
    end
  else (None, off).
Proof.
  unfold ParseOffset.
  rewrite !ParseInt_two by lia.
  destruct (Ascii.eqb (peek dp) "+" || Ascii.eqb (peek dp) "-");
    [| reflexivity].
  destruct (upto_two_digits 23 (next dp)) as [[ap hours] |]; [| reflexivity].
  destruct (consumed (next dp) ap =? 2); [| reflexivity].
  change (negb (Ascii.eqb NUL NUL) && Ascii.eqb (peek ap) NUL) with false.
  cbv iota. rewrite !ParseInt_two by lia.
  reflexivity.
Qed.

Lemma is_sign_eqb (c : ascii) :
  Ascii.eqb c "+" || Ascii.eqb c "-" = true <-> is_sign c.
Proof.
  unfold is_sign. rewrite orb_true_iff, !Ascii.eqb_eq. reflexivity.
Qed.

Lemma offset_small (sign : ascii) (hh mm : Z) :
  0 <= hh <= 99 -> 0 <= mm <= 99 ->
  (if Ascii.eqb sign "-"
   then int32 (- int32 (int32 (int32 (hh * 60) + mm) * 60))
   else int32 (int32 (int32 (hh * 60) + mm) * 60))
  = offset_of sign hh mm.
Proof.
  intros Hh Hm. unfold offset_of. cbv zeta.
  rewrite (int32_small (hh * 60)) by in_range.
  rewrite (int32_small (hh * 60 + mm)) by in_range.
  rewrite (int32_small ((hh * 60 + mm) * 60)) by in_range.
  destruct (Ascii.eqb sign "-"); [| reflexivity].
  apply int32_small. in_range.
Qed.

Lemma upto_two_digits_one (max : Z) (s : string) (x : Z) :
  digit_val (peek s) = Some x -> digit_val (peek (next s)) = None ->
  x <= max ->
  upto_two_digits max s = Some (next s, x)
  /\ (consumed s (next s) =? 2) = false.
Proof.
  destruct s as [| a s1]; [discriminate |].
  cbn [peek next upto_two_digits]. intros -> -> L.
  destruct (Z.leb_spec x max); [| lia].
  split; [reflexivity |].
  unfold consumed. cbn [String.length]. apply Z.eqb_neq. lia.
Qed.

Lemma two_digits_peek (s rest : string) (v : Z) :
  two_digits s = Some (v, rest) ->
  exists x y,
    digit_val (peek s) = Some x /\ digit_val (peek (next s)) = Some y.
Proof.
  destruct s as [| a [| b r]]; try discriminate.
  cbn [two_digits peek next].
  destruct (digit_val a) as [x |]; [| discriminate].
  destruct (digit_val b) as [y |]; [| discriminate].
  intros _. exists x, y. split; reflexivity.
Qed.

(** C7, as amended.  A [%z] directive needs a sign and exactly two
    hour digits in 0..23, with no separator: without them it fails and
    leaves the offset alone.  After them it consumes exactly two minute
    digits when two digits in 0..59 follow, and the offset is that of
    the hours and the minutes.  Input whose minute digits are absent
    (no digit follows the hours) or out of range (two digits above 59)
    does not fail the directive: the sign and the hours alone are
    consumed and the offset is that of the hours.  A single digit after
    the hours is not consumed either, and the directive succeeds on the
    sign and the hours.

    The five parts are: what a success means (with the offset in each
    of its three forms), two minute digits in range, minute digits
    absent or out of range, a single digit after the hours (where the
    offset returned counts that digit as minutes, although it stays in
    the input), and the failures. *)
Theorem C7_ParseOffset_minutes_optional (dp : string) (off : Z) :
  (* what a success means *)
  (forall rest o,
     ParseOffset (Some dp) NUL off = (Some rest, o) ->
     is_sign (peek dp)
     /\ exists hh tail,
          two_digits (next dp) = Some (hh, tail) /\ 0 <= hh <= 23
          /\ ((exists mm,
                 two_digits tail = Some (mm, rest) /\ 0 <= mm <= 59
                 /\ o = offset_of (peek dp) hh mm)
              \/ (rest = tail
                  /\ (digit_val (peek tail) = None
                      \/ exists mm r,
                           two_digits tail = Some (mm, r) /\ 59 < mm)
                  /\ o = offset_of (peek dp) hh 0)
              \/ (rest = tail
                  /\ exists m1,
                       digit_val (peek tail) = Some m1
                       /\ digit_val (peek (next tail)) = None
                       /\ o = offset_of (peek dp) hh m1)))
  (* two minute digits in range *)
  /\ (forall hh tail mm rest,
        is_sign (peek dp) ->
        two_digits (next dp) = Some (hh, tail) -> hh <= 23 ->
        two_digits tail = Some (mm, rest) -> mm <= 59 ->
        ParseOffset (Some dp) NUL off
        = (Some rest, offset_of (peek dp) hh mm))
  (* minute digits absent or out of range *)
  /\ (forall hh tail,
        is_sign (peek dp) ->
        two_digits (next dp) = Some (hh, tail) -> hh <= 23 ->
        digit_val (peek tail) = None
        \/ (exists mm rest, two_digits tail = Some (mm, rest) /\ 59 < mm) ->
        ParseOffset (Some dp) NUL off
        = (Some tail, offset_of (peek dp) hh 0))
  (* a single digit after the hours *)
  /\ (forall hh tail m1,
        is_sign (peek dp) ->
        two_digits (next dp) = Some (hh, tail) -> hh <= 23 ->
        digit_val (peek tail) = Some m1 ->
        digit_val (peek (next tail)) = None ->
        ParseOffset (Some dp) NUL off
        = (Some tail, offset_of (peek dp) hh m1))
  (* no sign, or no two hour digits in range *)
  /\ (~ is_sign (peek dp)
      \/ two_digits (next dp) = None
      \/ (exists hh tail, two_digits (next dp) = Some (hh, tail) /\ 23 < hh) ->
      ParseOffset (Some dp) NUL off = (None, off)).
Proof.
  assert (P2 : forall hh tail mm rest,
    is_sign (peek dp) ->
    two_digits (next dp) = Some (hh, tail) -> hh <= 23 ->
    two_digits tail = Some (mm, rest) -> mm <= 59 ->
    ParseOffset (Some dp) NUL off = (Some rest, offset_of (peek dp) hh mm)).
  { intros hh tail mm rest S T Hh T2 Hm. rewrite ParseOffset_NUL.
    apply is_sign_eqb in S. rewrite S.
    destruct (two_digits_upto 23 _ _ _ T) as (U & C & Rh).
    destruct (two_digits_upto 59 _ _ _ T2) as (U2 & C2 & Rm).
    rewrite U. destruct (Z.leb_spec hh 23); [| lia].
    rewrite C. cbn [Z.eqb Pos.eqb].
    rewrite U2. destruct (Z.leb_spec mm 59); [| lia].
    rewrite C2. cbn [Z.eqb Pos.eqb]. cbv beta iota zeta.
    rewrite offset_small by lia. reflexivity. }
  assert (P0 : forall hh tail,
    is_sign (peek dp) ->
    two_digits (next dp) = Some (hh, tail) -> hh <= 23 ->
    digit_val (peek tail) = None
    \/ (exists mm rest, two_digits tail = Some (mm, rest) /\ 59 < mm) ->
    ParseOffset (Some dp) NUL off = (Some tail, offset_of (peek dp) hh 0)).
  { intros hh tail S T Hh M. rewrite ParseOffset_NUL.
    apply is_sign_eqb in S. rewrite S.
    destruct (two_digits_upto 23 _ _ _ T) as (U & C & Rh).
    rewrite U. destruct (Z.leb_spec hh 23); [| lia].
    rewrite C. cbn [Z.eqb Pos.eqb].
    assert (U2 : upto_two_digits 59 tail = None).
    { destruct M as [M | (mm & rest & T2 & Hm)].
      - apply upto_two_digits_nondigit. exact M.
      - destruct (two_digits_upto 59 _ _ _ T2) as (U2 & _ & _).
        rewrite U2. destruct (Z.leb_spec mm 59); [lia | reflexivity]. }
    rewrite U2. cbv beta iota zeta.
    rewrite offset_small by lia. reflexivity. }
  assert (P1 : forall hh tail m1,
    is_sign (peek dp) ->
    two_digits (next dp) = Some (hh, tail) -> hh <= 23 ->
    digit_val (peek tail) = Some m1 ->
    digit_val (peek (next tail)) = None ->
    ParseOffset (Some dp) NUL off = (Some tail, offset_of (peek dp) hh m1)).
  { intros hh tail m1 S T Hh D1 D2. rewrite ParseOffset_NUL.
    apply is_sign_eqb in S. rewrite S.
    destruct (two_digits_upto 23 _ _ _ T) as (U & C & Rh).
    rewrite U. destruct (Z.leb_spec hh 23); [| lia].
    rewrite C. cbn [Z.eqb Pos.eqb].
    pose proof (digit_val_range _ _ D1) as R1.
    destruct (upto_two_digits_one 59 tail m1 D1 D2 ltac:(lia)) as [U2 C2].
    rewrite U2, C2. cbv beta iota zeta.
    rewrite offset_small by lia. reflexivity. }
  split; [| split; [exact P2 | split; [exact P0 | split; [exact P1 |]]]].
  - intros rest o E.
    assert (S : is_sign (peek dp)).
    { rewrite ParseOffset_NUL in E. apply is_sign_eqb.
      destruct (Ascii.eqb (peek dp) "+" || Ascii.eqb (peek dp) "-");
        [reflexivity | discriminate]. }
    split; [exact S |].
    assert (H : exists hh tail,
               two_digits (next dp) = Some (hh, tail) /\ 0 <= hh <= 23).
    { rewrite ParseOffset_NUL in E.
      apply is_sign_eqb in S. rewrite S in E.
      destruct (upto_two_digits 23 (next dp)) as [[ap hours] |] eqn:U;
        [| discriminate].
      destruct (consumed (next dp) ap =? 2) eqn:C; [| discriminate].
      destruct (upto_two_digits_consumed _ _ _ _ U C) as [T Hh].
      destruct (two_digits_upto 23 _ _ _ T) as (_ & _ & Rh).
      exists hours, ap. split; [exact T | lia]. }
    destruct H as (hh & tail & T & Hh).
    exists hh, tail. split; [exact T |]. split; [exact Hh |].
    destruct (digit_val (peek tail)) as [m1 |] eqn:D1.
    + destruct (digit_val (peek (next tail))) as [m2 |] eqn:D2.
      * (* two digits follow the hours *)
        assert (T2 : two_digits tail
                     = Some (10 * m1 + m2, next (next tail))).
        { rewrite (peek_digit tail m1 D1).
          rewrite (peek_digit (next tail) m2 D2).
          cbn [two_digits peek next]. rewrite D1, D2. reflexivity. }
        pose proof (digit_val_range _ _ D1).
        pose proof (digit_val_range _ _ D2).
        destruct (Z.le_gt_cases (10 * m1 + m2) 59) as [L | G].
        -- rewrite (P2 hh tail _ _ S T ltac:(lia) T2 L) in E.
           left. exists (10 * m1 + m2).
           assert (next (next tail) = rest) by congruence.
           assert (offset_of (peek dp) hh (10 * m1 + m2) = o)
             by congruence.
           subst rest o. repeat split; (assumption || lia).
        -- rewrite (P0 hh tail S T ltac:(lia)) in E
             by (right; exists (10 * m1 + m2), (next (next tail));
                 split; [exact T2 | lia]).
           right. left.
           assert (tail = rest) by congruence.
           assert (offset_of (peek dp) hh 0 = o) by congruence.
           subst rest o. split; [reflexivity |]. split; [| reflexivity].
           right. exists (10 * m1 + m2), (next (next tail)).
           split; [exact T2 | lia].
      * rewrite (P1 hh tail m1 S T ltac:(lia) D1 D2) in E.
        right. right.
        assert (tail = rest) by congruence.
        assert (offset_of (peek dp) hh m1 = o) by congruence.
        subst rest o. split; [reflexivity |]. exists m1.
        repeat split; assumption.
    + rewrite (P0 hh tail S T ltac:(lia) (or_introl D1)) in E.
      right. left.
      assert (tail = rest) by congruence.
      assert (offset_of (peek dp) hh 0 = o) by congruence.
      subst rest o. split; [reflexivity |]. split; [| reflexivity].
      left. reflexivity.
  - intros F. rewrite ParseOffset_NUL.
    destruct (Ascii.eqb (peek dp) "+" || Ascii.eqb (peek dp) "-") eqn:S;
      [| reflexivity].
    apply is_sign_eqb in S.
    destruct (upto_two_digits 23 (next dp)) as [[ap hours] |] eqn:U;
      [| reflexivity].
    destruct (consumed (next dp) ap =? 2) eqn:C; [| reflexivity].
    destruct (upto_two_digits_consumed _ _ _ _ U C) as [T Hh].
    exfalso. destruct F as [F | [F | (hh & tail & F & G)]].
    + exact (F S).
    + congruence.
    + assert (hh = hours) by congruence. lia.
Qed.

Lemma C7_ParseOffset_minutes_optional_witness :
  ParseOffset (Some "+05"%string) NUL 0
  = (Some ""%string, offset_of "+" 5 0).
Proof.
  apply (proj1 (proj2 (proj2 (C7_ParseOffset_minutes_optional "+05" 0))) 5
           ""%string).
  - left. reflexivity.
  - reflexivity.
  - lia.
  - left. reflexivity.
Defined.

(** C7, the claim as stated: every successful [%z] would consume five
    characters.  "+05" succeeds on three, and "+0560" succeeds on three
    and leaves "60" in the input. *)
Lemma C7_counterexample :
  ~ (forall dp off rest o,
       ParseOffset (Some dp) NUL off = (Some rest, o) ->
       consumed dp rest = 5)
  /\ ParseOffset (Some "+05"%string) NUL 0 = (Some ""%string, 18000)
  /\ ParseOffset (Some "+0560"%string) NUL 0 = (Some "60"%string, 18000).
Proof.
  split; [| split; vm_compute; reflexivity].
  intros H.
  specialize (H "+05"%string 0 ""%string 18000 eq_refl).
  vm_compute in H. discriminate.
Qed.

(** A single digit after the hours: "+055" is read as "+05", the "5"
    stays in the input, and the offset is 5 h 5 min. *)
Lemma ParseOffset_lone_minute_digit :
  ParseOffset (Some "+055"%string) NUL 0 = (Some "5"%string, 18300)
  /\ offset_of "+" 5 5 = 18300.
Proof. split; vm_compute; reflexivity. Qed.

(** ** The minus sign in [ParseInt] *)

Lemma ParseInt_minus_nonzero (bits : Z) (dp rest : string)
  (width min max v : Z) :
  peek dp = "-"%char ->
  ParseInt bits (Some dp) width min max = Some (rest, v) ->
  v <> 0.
Proof.
  intros Hneg. unfold ParseInt. rewrite Hneg.
  change (Ascii.eqb "-" "-") with true. cbv iota.
  destruct (if width <=? 0 then (Some (next dp), width)
            else if negb (width - 1 =? 0)
                 then (Some (next dp), width - 1)
                 else (None, width - 1)) as [[bp |] w]; [| discriminate].
  destruct (ParseInt_digits bits bp w 0) as [[dp' value] erange].
  destruct (negb (ptr_eqb dp' bp) && negb erange
            && (true || negb (value =? - 2 ^ (bits - 1)))); [| discriminate].
  cbn [negb orb].
  destruct (Z.eqb_spec value 0) as [| N]; [discriminate |].
  cbn [negb].
  destruct ((min <=? value) && (value <=? max)); [| discriminate].
  intros E. assert (v = value) by congruence. subst v. exact N.
Qed.

Lemma ParseInt_digits_zeros (n : nat) (rest : string) (width : Z) :
  digit_val (peek rest) = None ->
  exists dp', ParseInt_digits 32 (zeros n rest) width 0 = (dp', 0, false).
Proof.
  intros E. revert width. induction n as [| n IH]; intros width.
  - exists rest. apply ParseInt_digits_nondigit. exact E.
  - cbn [zeros].
    rewrite (ParseInt_digits_digit "0" _ width 0 0) by (reflexivity || lia).
    destruct ((width >? 0) && (width - 1 =? 0)).
    + eexists. reflexivity.
    + apply IH.
Qed.

Lemma ParseInt_minus_zeros (n : nat) (rest : string) (width min max : Z) :
  digit_val (peek rest) = None ->
  ParseInt 32 (Some (String "-" (zeros n rest))) width min max = None.
Proof.
  intros E. unfold ParseInt. cbn [peek next].
  change (Ascii.eqb "-" "-") with true. cbv iota.
  assert (D : forall w,
    (let '(dp, value, erange) := ParseInt_digits 32 (zeros n rest) w 0 in
     if negb (ptr_eqb dp (zeros n rest)) && negb erange
        && (true || negb (value =? - 2 ^ (32 - 1)))
     then
       if negb true || negb (value =? 0)
       then
         let value := if negb true then wrap 32 (- value) else value in
         if (min <=? value) && (value <=? max)
         then Some (dp, value) else None
       else None
     else None) = None).
  { intros w. destruct (ParseInt_digits_zeros n rest w E) as [dp' ->].
    cbn [negb orb Z.eqb].
    destruct (negb (ptr_eqb dp' (zeros n rest)) && true && true);
      reflexivity. }
  destruct (width <=? 0); [apply D |].
  destruct (negb (width - 1 =? 0)); [apply D | reflexivity].
Qed.

(** C10.  [ParseInt] refuses a minus sign followed by digits whose
    value is zero: a success after a minus sign never yields zero, a
    minus sign followed by zeros is refused for every width and range,
    so [Parse] of "-0" against "%Y" returns false while "0" parses. *)
Theorem C10_ParseInt_refuses_minus_zero :
  (forall bits dp rest width min max v,
     peek dp = "-"%char ->
     ParseInt bits (Some dp) width min max = Some (rest, v) ->
     v <> 0)
  /\ (forall n rest width min max,
        digit_val (peek rest) = None ->
        ParseInt 32 (Some (String "-" (zeros n rest))) width min max = None)
  /\ (forall h tz tpp, Parse h "%Y" "-0" tz tpp = (false, tpp))
  /\ (forall h tpp,
        Parse h "%Y" "0" (UTCTimeZone h) tpp
        = (true, pre (MakeTimeInfo h (TimeZoneLibC_new "UTC") 0 1 1 0 0 0))).
Proof.
  split; [| split; [| split]].
  - intros bits dp rest width min max v.
    apply ParseInt_minus_nonzero.
  - intros. apply ParseInt_minus_zeros. assumption.
  - intros h tz tpp. vm_compute. reflexivity.
  - intros h tpp. vm_compute. reflexivity.
Qed.

Lemma C10_ParseInt_refuses_minus_zero_witness :
  (-5) <> 0
  /\ ParseInt 32 (Some (String "-" (zeros 2 "x"%string))) 0 (-10) 10 = None.
Proof.
  split.
  - apply (proj1 C10_ParseInt_refuses_minus_zero
             32 "-5"%string ""%string 0 (-10) 10 (-5)); reflexivity.
  - apply (proj1 (proj2 C10_ParseInt_refuses_minus_zero)). reflexivity.
Defined.

(** ** The end of [Parse] *)

Lemma Parse_finish_false (h : Host) (st : PState) (tz : TimeZone)
  (tpp : time_point) :
  fst (Parse_finish h st tz tpp) = false ->
  snd (Parse_finish h st tz tpp) = tpp.
Proof.
  unfold Parse_finish.
  destruct (data st) as [d |]; [| reflexivity].
  destruct (negb (Ascii.eqb (peek (skip_spaces d)) NUL)); [reflexivity |].
  destruct (saw_precent_s st); [discriminate |].
  destruct (Parse_zone h st tz) as [ptz off].
  destruct (Parse_leap_second _ _ _) as [[tm1 off1] ss1].
  cbv zeta.
  destruct (normalized _); [reflexivity | discriminate].
Qed.

(** C3.  Whenever [Parse] returns false the out parameter holds on
    return the value it held on entry: [*tpp] is assigned only on the
    paths that return true. *)
Theorem C3_Parse_false_leaves_out (h : Host) (format input : string)
  (tz : TimeZone) (tpp : time_point) :
  fst (Parse h format input tz tpp) = false ->
  snd (Parse h format input tz tpp) = tpp.
Proof.
  unfold Parse. apply Parse_finish_false.
Qed.

Lemma C3_Parse_false_leaves_out_witness :
  snd (Parse null_host "%Y-%m-%d" "2013-10-32" (UTCTimeZone null_host) 42)
  = 42.
Proof.
  apply (C3_Parse_false_leaves_out null_host "%Y-%m-%d" "2013-10-32"
           (UTCTimeZone null_host) 42).
  vm_compute. reflexivity.
Defined.

(** Each way of failing leaves the out parameter alone: a literal that
    does not match, a field out of range, an integer that overflows,
    input left over, and a conversion that normalized. *)
Lemma Parse_failures (h : Host) (tz : TimeZone) (tpp : time_point) :
  Parse h "%H:%M" "12-30" tz tpp = (false, tpp)
  /\ Parse h "%d" "32" tz tpp = (false, tpp)
  /\ Parse h "%s" "9223372036854775808" tz tpp = (false, tpp)
  /\ Parse h "%H" "12 30" tz tpp = (false, tpp)
  /\ Parse h "%H"  "12"
       (mkTimeZoneIf (If_BreakTime tz)
          (fun _ _ _ _ _ _ => mkTimeInfo UNIQUE 0 0 0 true)) tpp
     = (false, tpp).
Proof.
  repeat split; vm_compute; reflexivity.
Qed.

(** The day loops of [MakeTimeInfo] leave [normalized] down, so the
    strict check at the end of [Parse] lets a day beyond the end of its
    month through: "2013-09-31" is read as October 1. *)
Lemma Parse_Sep_31_accepted (h : Host) (tpp : time_point) :
  Parse h "%Y-%m-%d" "2013-09-31" (UTCTimeZone h) tpp
  = (true, pre (MakeTimeInfo h (TimeZoneLibC_new "UTC") 2013 10 1 0 0 0)).
Proof. vm_compute. reflexivity. Qed.

(** ** [%s] *)

Lemma ParseInt_range (bits : Z) (dp : option string) (width min max : Z)
  (rest : string) (v : Z) :
  ParseInt bits dp width min max = Some (rest, v) -> min <= v <= max.
Proof.
  unfold ParseInt.
  destruct dp as [dp |]; [| discriminate].
  destruct (if Ascii.eqb (peek dp) "-" then _ else _) as [[bp |] w];
    [| discriminate].
  destruct (ParseInt_digits bits bp w 0) as [[dp' value] erange].
  destruct (_ && _ && _); [| discriminate].
  destruct (_ || _); [| discriminate].
  cbv zeta.
  destruct (Z.leb_spec min
              (if negb (Ascii.eqb (peek dp) "-")
               then wrap bits (- value) else value)); [| discriminate].
  destruct (Z.leb_spec
              (if negb (Ascii.eqb (peek dp) "-")
               then wrap bits (- value) else value) max); [| discriminate].
  cbn [andb]. intros E.
  assert (v = if negb (Ascii.eqb (peek dp) "-")
              then wrap bits (- value) else value) by congruence.
  subst v. split; assumption.
Qed.

(** Breaks the goal along the tests the scan makes. *)
Ltac scan_cases :=
  repeat match goal with
  | |- context [let '(_, _) := ?x in _] => destruct x
  | |- context [match ?x with _ => _ end] =>
      match type of x with
      | bool => destruct x
      | option _ => destruct x
      | prod _ _ => destruct x
      end
  end.

Lemma parse_field_percent_s (st : PState) (f : string) (w mn mx : Z)
  (set : tm -> Z -> tm) (adj : Z) :
  percent_s_time (parse_field st f w mn mx set adj) = percent_s_time st.
Proof. unfold parse_field. scan_cases; reflexivity. Qed.

Lemma parse_delegate_percent_s (h : Host) (st : PState) (p f : string) :
  percent_s_time (parse_delegate h st p f) = percent_s_time st.
Proof. unfold parse_delegate. scan_cases; reflexivity. Qed.

Lemma parse_E_percent_s (h : Host) (st : PState) (p f : string) :
  percent_s_time (parse_E h st p f) = percent_s_time st.
Proof.
  unfold parse_E.
  scan_cases; cbn [percent_s_time with_subseconds with_data_fmt with_offset
                   with_tm with_twelve_hour];
  rewrite ?parse_delegate_percent_s, ?parse_field_percent_s;
  reflexivity.
Qed.

Lemma Parse_step_percent_s (h : Host) (st : PState) :
  in_int64 (percent_s_time st) ->
  in_int64 (percent_s_time (Parse_step h st)).
Proof.
  intros I. unfold Parse_step.
  destruct (data st) as [d |]; [| exact I].
  destruct (ParseInt 64 (Some d) 0 INT64_MIN INT64_MAX) as [[d' v] |] eqn:E.
  - apply ParseInt_range in E.
    scan_cases;
    cbn [percent_s_time with_subseconds with_data_fmt with_offset with_zone
         with_tm with_twelve_hour with_percent_s];
    rewrite ?parse_delegate_percent_s, ?parse_field_percent_s,
      ?parse_E_percent_s;
    try exact I; exact E.
  - scan_cases;
    cbn [percent_s_time with_subseconds with_data_fmt with_offset with_zone
         with_tm with_twelve_hour with_percent_s];
    rewrite ?parse_delegate_percent_s, ?parse_field_percent_s,
      ?parse_E_percent_s;
    exact I.
Qed.

Lemma Parse_loop_percent_s (n : nat) (h : Host) (st : PState) :
  in_int64 (percent_s_time st) ->
  in_int64 (percent_s_time (Parse_loop n h st)).
Proof.
  revert st. induction n as [| n IH]; intros st I; [exact I |].
  cbn [Parse_loop].
  destruct (data st); [| exact I].
  destruct (Ascii.eqb (peek (fmt st)) NUL); [exact I |].
  apply IH. apply Parse_step_percent_s. exact I.
Qed.

Lemma seconds_exact (t : Z) :
  in_int64 t -> seconds t = t * kNanosPerSecond.
Proof.
  unfold in_int64, INT64_MIN, INT64_MAX, seconds, kNanosPerSecond.
  intros H. apply int128_small. lia.
Qed.

Lemma Parse_finish_percent_s (h : Host) (st : PState) (tz : TimeZone)
  (tpp : time_point) :
  saw_precent_s st = true ->
  Parse_finish h st tz tpp =
  match data st with
  | None => (false, tpp)
  | Some d =>
      if Ascii.eqb (peek (skip_spaces d)) NUL
      then (true, seconds (percent_s_time st))
      else (false, tpp)
  end.
Proof.
  intros S. unfold Parse_finish. rewrite S.
  destruct (data st) as [d |]; [| reflexivity].
  destruct (Ascii.eqb (peek (skip_spaces d)) NUL); reflexivity.
Qed.

Lemma parse_field_saw (st : PState) (f : string) (w mn mx : Z)
  (set : tm -> Z -> tm) (adj : Z) :
  saw_precent_s (parse_field st f w mn mx set adj) = saw_precent_s st.
Proof. unfold parse_field. scan_cases; reflexivity. Qed.

Lemma parse_delegate_saw (h : Host) (st : PState) (p f : string) :
  saw_precent_s (parse_delegate h st p f) = saw_precent_s st.
Proof. unfold parse_delegate. scan_cases; reflexivity. Qed.

Lemma parse_E_saw (h : Host) (st : PState) (p f : string) :
  saw_precent_s (parse_E h st p f) = saw_precent_s st.
Proof.
  unfold parse_E.
  scan_cases; cbn [saw_precent_s with_subseconds with_data_fmt with_offset
                   with_tm with_twelve_hour];
  rewrite ?parse_delegate_saw, ?parse_field_saw;
  reflexivity.
Qed.

(** Nothing in the scan clears [saw_precent_s]. *)
Lemma Parse_step_saw (h : Host) (st : PState) :
  saw_precent_s st = true -> saw_precent_s (Parse_step h st) = true.
Proof.
  intros S. unfold Parse_step.
  scan_cases;
    cbn [saw_precent_s with_subseconds with_data_fmt with_offset with_zone
         with_tm with_twelve_hour with_percent_s];
    rewrite ?parse_delegate_saw, ?parse_field_saw, ?parse_E_saw;
    try exact S; reflexivity.
Qed.

Lemma Parse_loop_saw (n : nat) (h : Host) (st : PState) :
  saw_precent_s st = true -> saw_precent_s (Parse_loop n h st) = true.
Proof.
  revert st. induction n as [| n IH]; intros st S; [exact S |].
  cbn [Parse_loop].
  destruct (data st); [| exact S].
  destruct (Ascii.eqb (peek (fmt st)) NUL); [exact S |].
  apply IH. apply Parse_step_saw. exact S.
Qed.

(** A [%s] directive whose integer is read. *)
Lemma Parse_step_percent_s_read (h : Host) (st : PState) (d f d' : string)
  (v : Z) :
  data st = Some d -> fmt st = String "%" (String "s" f) ->
  ParseInt 64 (Some d) 0 INT64_MIN INT64_MAX = Some (d', v) ->
  Parse_step h st = with_percent_s (with_data_fmt st (Some d') f) v.
Proof.
  intros D F P. unfold Parse_step. rewrite D, F.
  cbn [peek next]. rewrite P. reflexivity.
Qed.

(** C5.  A [%s] directive whose integer is read records it in
    [percent_s_time] and sets [saw_precent_s], which nothing clears;
    then a successful [Parse] yields exactly [percent_s_time] seconds
    since the Unix epoch, and the outcome is the same for every zone
    and for every value of the other fields, the offset and the
    subseconds.  Parsing "1000000000" against "%s" yields
    2001-09-09T01:46:40Z. *)
Theorem C5_percent_s_alone_decides :
  (forall h st d f d' v,
     data st = Some d -> fmt st = String "%" (String "s" f) ->
     ParseInt 64 (Some d) 0 INT64_MIN INT64_MAX = Some (d', v) ->
     saw_precent_s (Parse_step h st) = true
     /\ percent_s_time (Parse_step h st) = v)
  /\ (forall n h st,
        saw_precent_s st = true -> saw_precent_s (Parse_loop n h st) = true)
  /\ (forall h format input tz tpp,
        let st := Parse_loop (String.length (c_str format)) h
                    (Parse_init format input) in
        saw_precent_s st = true ->
        (fst (Parse h format input tz tpp) = true ->
         snd (Parse h format input tz tpp)
         = percent_s_time st * kNanosPerSecond)
        /\ (forall tz' st',
              data st' = data st ->
              percent_s_time st' = percent_s_time st ->
              saw_precent_s st' = true ->
              Parse_finish h st' tz' tpp = Parse h format input tz tpp))
  /\ (forall h tz tpp,
        Parse h "%s" "1000000000" tz tpp
        = (true, 1000000000 * kNanosPerSecond))
  /\ (forall h,
        pre (MakeTimeInfo h (TimeZoneLibC_new "UTC") 2001 9 9 1 46 40)
        = 1000000000 * kNanosPerSecond).
Proof.
  split.
  { intros h st d f d' v D F P.
    rewrite (Parse_step_percent_s_read h st d f d' v D F P).
    split; reflexivity. }
  split; [exact Parse_loop_saw |].
  split; [| split; intros; vm_compute; reflexivity].
  intros h format input tz tpp st S.
  assert (I : in_int64 (percent_s_time st)).
  { apply Parse_loop_percent_s. cbn. unfold in_int64, INT64_MIN, INT64_MAX.
    lia. }
  unfold Parse. fold st.
  split.
  - rewrite (Parse_finish_percent_s h st tz tpp S).
    destruct (data st) as [d |]; [| discriminate].
    destruct (Ascii.eqb (peek (skip_spaces d)) NUL); [| discriminate].
    intros _. cbn [snd]. apply seconds_exact. exact I.
  - intros tz' st' D P S'.
    rewrite (Parse_finish_percent_s h st tz tpp S).
    rewrite (Parse_finish_percent_s h st' tz' tpp S').
    rewrite D, P. reflexivity.
Qed.

Lemma C5_percent_s_alone_decides_witness :
  snd (Parse null_host "%Y %s" "2015 -86400" (UTCTimeZone null_host) 0)
  = -86400 * kNanosPerSecond.
Proof.
  refine (proj1 (proj1 (proj2 (proj2 C5_percent_s_alone_decides))
                   null_host "%Y %s"%string "2015 -86400"%string
                   (UTCTimeZone null_host) 0 _) _).
  - vm_compute. reflexivity.
  - vm_compute. reflexivity.
Defined.

(** ** The leap second *)

Lemma Parse_afternoon_sec (st : PState) :
  tm_sec (Parse_afternoon st) = tm_sec (tm_ st).
Proof.
  unfold Parse_afternoon. destruct (_ && _ && _); reflexivity.
Qed.

Lemma Parse_leap_second_60 (tm0 : tm) (offset : Z) (ss : duration) :
  tm_sec tm0 = 60 ->
  Parse_leap_second tm0 offset ss
  = (set_tm_sec tm0 59, int32 (offset - 1), 0).
Proof.
  intros E. unfold Parse_leap_second. rewrite E. reflexivity.
Qed.

(** C4.  When the parsed seconds are 60, [Parse] sets them to 59, takes
    one from the offset and drops the subseconds, so the instant is the
    ":00" that follows; "00:60" against "%M:%S" in UTC is
    1970-01-01T00:01:00.0Z and so is "00:60.5" against "%M:%E*S". *)
Theorem C4_leap_second_rolls_forward :
  (forall tm0 offset ss,
     tm_sec tm0 = 60 ->
     Parse_leap_second tm0 offset ss
     = (set_tm_sec tm0 59, int32 (offset - 1), 0))
  /\ (forall h st tz tpp d,
        data st = Some d -> peek (skip_spaces d) = NUL ->
        saw_precent_s st = false -> tm_sec (tm_ st) = 60 ->
        let tm0 := Parse_afternoon st in
        let ti :=
          If_MakeTimeInfo (fst (Parse_zone h st tz)) (Parse_year tm0)
            (int32 (tm_mon tm0 + 1)) (tm_mday tm0) (tm_hour tm0)
            (tm_min tm0) 59 in
        Parse_finish h st tz tpp =
        if normalized ti then (false, tpp)
        else (true,
              int128 (int128 (pre ti
                              - seconds (int32 (snd (Parse_zone h st tz) - 1)))
                      + 0)))
  /\ (forall h tpp,
        Parse h "%M:%S" "00:60" (UTCTimeZone h) tpp
        = (true, pre (MakeTimeInfo h (TimeZoneLibC_new "UTC")
                        1970 1 1 0 1 0)))
  /\ (forall h tpp,
        Parse h "%M:%E*S" "00:60.5" (UTCTimeZone h) tpp
        = (true, pre (MakeTimeInfo h (TimeZoneLibC_new "UTC")
                        1970 1 1 0 1 0)))
  /\ (forall h,
        pre (MakeTimeInfo h (TimeZoneLibC_new "UTC") 1970 1 1 0 1 0)
        = 60 * kNanosPerSecond).
Proof.
  split; [exact Parse_leap_second_60 |].
  split; [| repeat split; intros; vm_compute; reflexivity].
  intros h st tz tpp d D T S E tm0 ti.
  unfold Parse_finish. rewrite D, T, S.
  change (negb (Ascii.eqb NUL NUL)) with false. cbv iota.
  destruct (Parse_zone h st tz) as [ptz off] eqn:Z.
  rewrite Parse_leap_second_60 by (rewrite Parse_afternoon_sec; exact E).
  reflexivity.
Qed.

Lemma C4_leap_second_rolls_forward_witness :
  Parse_leap_second (set_tm_sec tm_zero 60) 3600 500000000
  = (set_tm_sec (set_tm_sec tm_zero 60) 59, int32 (3600 - 1), 0).
Proof.
  apply (proj1 C4_leap_second_rolls_forward). reflexivity.
Defined.

(** ** The scan of [Parse] runs to its end *)

Lemma length_next_le (s : string) :
  (String.length (next s) <= String.length s)%nat.
Proof. destruct s; cbn [next String.length]; lia. Qed.

Lemma length_next_lt (s : string) :
  Ascii.eqb (peek s) NUL = false ->
  (String.length (next s) < String.length s)%nat.
Proof.
  destruct s; cbn [peek next String.length]; [discriminate | lia].
Qed.

Lemma length_skip_spaces_le (s : string) :
  (String.length (skip_spaces s) <= String.length s)%nat.
Proof.
  induction s as [| c s IH]; cbn [skip_spaces String.length]; [lia |].
  destruct (isspace c); cbn [String.length]; lia.
Qed.

Lemma ParseInt_digits_length (bits : Z) (dp : string) :
  forall width value,
    let '(dp', _, _) := ParseInt_digits bits dp width value in
    (String.length dp' <= String.length dp)%nat.
Proof.
  induction dp as [| c dp IH]; intros width value;
    cbn [ParseInt_digits String.length]; [lia |].
  destruct (strchr kDigits c) as [d |]; [| cbn [String.length]; lia].
  destruct (d >=? 10); [cbn [String.length]; lia |].
  destruct (value <? _); [cbn [String.length]; lia |].
  destruct (_ <? _); [cbn [String.length]; lia |].
  destruct (_ && _); [lia |].
  specialize (IH (if width >? 0 then width - 1 else width)
                (wrap bits (wrap bits (value * 10) - d))).
  destruct (ParseInt_digits bits dp _ _) as [[dp' v'] e']. lia.
Qed.

Lemma ParseInt_length (bits : Z) (s rest : string) (width min max v : Z) :
  ParseInt bits (Some s) width min max = Some (rest, v) ->
  (String.length rest <= String.length s)%nat.
Proof.
  unfold ParseInt.
  pose proof (length_next_le s) as N.
  destruct (if Ascii.eqb (peek s) "-" then _ else _) as [[bp |] w] eqn:B;
    [| discriminate].
  assert (L : (String.length bp <= String.length s)%nat).
  { destruct (Ascii.eqb (peek s) "-").
    - destruct (width <=? 0); [injection B as <- _; exact N |].
      destruct (negb (width - 1 =? 0)); [injection B as <- _; exact N |].
      discriminate.
    - injection B as <- _. lia. }
  pose proof (ParseInt_digits_length bits bp w 0) as D.
  destruct (ParseInt_digits bits bp w 0) as [[dp' value] erange].
  destruct (_ && _ && _); [| discriminate].
  destruct (_ || _); [| discriminate].
  cbv zeta. destruct (_ && _); [| discriminate].
  intros E. injection E as <- _. lia.
Qed.

Lemma fmt_parse_field (st : PState) (f : string) (w mn mx : Z)
  (set : tm -> Z -> tm) (adj : Z) :
  fmt (parse_field st f w mn mx set adj) = f.
Proof. unfold parse_field. scan_cases; reflexivity. Qed.

Lemma fmt_parse_delegate (h : Host) (st : PState) (p f : string) :
  fmt (parse_delegate h st p f) = f.
Proof. unfold parse_delegate. scan_cases; reflexivity. Qed.

(** Reduces [fmt] of an updated state. *)
Ltac fmt_simpl :=
  cbn [fmt with_subseconds with_data_fmt with_offset with_zone with_tm
       with_twelve_hour with_afternoon with_percent_s];
  rewrite ?fmt_parse_delegate, ?fmt_parse_field;
  cbn [fmt with_subseconds with_data_fmt with_offset with_zone with_tm
       with_twelve_hour with_afternoon with_percent_s].

Lemma fmt_parse_E (h : Host) (st : PState) (p f : string) :
  (String.length (fmt (parse_E h st p f)) <= String.length f)%nat.
Proof.
  unfold parse_E.
  pose proof (length_next_le f) as N1.
  pose proof (length_next_le (next f)) as N2.
  destruct (ParseInt 32 (Some f) 0 0 1024) as [[np n] |] eqn:P.
  - apply ParseInt_length in P. pose proof (length_next_le np) as N3.
    scan_cases; fmt_simpl; lia.
  - scan_cases; fmt_simpl; lia.
Qed.

Lemma Parse_step_progress (h : Host) (st : PState) (d : string) :
  data st = Some d -> Ascii.eqb (peek (fmt st)) NUL = false ->
  data (Parse_step h st) = None
  \/ (String.length (fmt (Parse_step h st)) < String.length (fmt st))%nat.
Proof.
  intros D F. unfold Parse_step. rewrite D.
  pose proof (length_next_lt (fmt st) F) as N1.
  pose proof (length_next_le (next (fmt st))) as N2.
  pose proof (length_next_le (next (next (fmt st)))) as N3.
  pose proof (length_skip_spaces_le (next (fmt st))) as S1.
  pose proof (fmt_parse_E h st (fmt st) (next (next (fmt st)))) as E.
  scan_cases; fmt_simpl;
    try (left; reflexivity); right; lia.
Qed.

Lemma Parse_loop_no_data (n : nat) (h : Host) (st : PState) :
  data st = None -> Parse_loop n h st = st.
Proof. intros D. destruct n; cbn [Parse_loop]; [| rewrite D]; reflexivity. Qed.

(** The scan stops only when the data pointer is null or the format is
    used up: its bound on the number of turns is never what ends it. *)
Lemma Parse_loop_exit (h : Host) (n : nat) :
  forall st,
    (String.length (fmt st) <= n)%nat ->
    data (Parse_loop n h st) = None
    \/ peek (fmt (Parse_loop n h st)) = NUL.
Proof.
  induction n as [| n IH]; intros st L.
  - right. cbn [Parse_loop]. destruct (fmt st); [reflexivity |].
    cbn [String.length] in L. lia.
  - cbn [Parse_loop].
    destruct (data st) as [d |] eqn:D; [| left; exact D].
    destruct (Ascii.eqb (peek (fmt st)) NUL) eqn:F.
    + right. apply Ascii.eqb_eq. exact F.
    + destruct (Parse_step_progress h st d D F) as [N | P].
      * left. rewrite (Parse_loop_no_data n h _ N). exact N.
      * apply IH. lia.
Qed.

Lemma Parse_scan_complete (h : Host) (format input : string) :
  let st := Parse_loop (String.length (c_str format)) h
              (Parse_init format input) in
  data st = None \/ peek (fmt st) = NUL.
Proof.
  cbv zeta. apply Parse_loop_exit. cbn [fmt Parse_init]. lia.
Qed.

(** ** The integer conversions of [Format] *)

Lemma kDigits_at_digit (d : Z) :
  0 <= d <= 9 -> digit_val (kDigits_at d) = Some d.
Proof.
  intros H.
  assert (C : d = 0 \/ d = 1 \/ d = 2 \/ d = 3 \/ d = 4 \/ d = 5 \/ d = 6
              \/ d = 7 \/ d = 8 \/ d = 9) by lia.
  repeat (destruct C as [-> | C]; [reflexivity |]). subst. reflexivity.
Qed.

Lemma dec_value_from_app (s1 s2 : string) (acc : Z) :
  dec_value_from acc (s1 ++ s2) =
  match dec_value_from acc s1 with
  | Some a => dec_value_from a s2
  | None => None
  end.
Proof.
  revert acc. induction s1 as [| c s1 IH]; intros acc; [reflexivity |].
  cbn [append dec_value_from].
  destruct (digit_val c); [apply IH | reflexivity].
Qed.

Lemma length_app (s1 s2 : string) :
  String.length (s1 ++ s2) = (String.length s1 + String.length s2)%nat.
Proof.
  induction s1 as [| c s1 IH]; [reflexivity |].
  cbn [append String.length]. rewrite IH. reflexivity.
Qed.

Lemma app_assoc1 (D : string) (c : ascii) (ep : string) :
  (D ++ String c ep)%string = ((D ++ String c EmptyString) ++ ep)%string.
Proof.
  induction D as [| a D IH]; [reflexivity |].
  cbn [append]. rewrite IH. reflexivity.
Qed.

Lemma pow2_succ (n : nat) :
  2 ^ (Z.of_nat (S n) + 1) = 2 * 2 ^ (Z.of_nat n + 1).
Proof.
  rewrite Nat2Z.inj_succ.
  replace (Z.succ (Z.of_nat n) + 1) with (Z.succ (Z.of_nat n + 1)) by lia.
  apply Z.pow_succ_r. lia.
Qed.

Lemma pow10_succ (n : nat) :
  10 ^ Z.of_nat (S n) = 10 * 10 ^ Z.of_nat n.
Proof.
  rewrite Nat2Z.inj_succ. apply Z.pow_succ_r. lia.
Qed.

Lemma pow10_pos (n : nat) : 0 < 10 ^ Z.of_nat n.
Proof. apply Z.pow_pos_nonneg; lia. Qed.

(** The digit loop writes the decimal representation of [v] in front
    of [ep] and takes its length from [width]. *)
Lemma Format64_digits_spec (fuel : nat) :
  forall ep width v,
    0 <= v < 2 ^ (Z.of_nat fuel + 1) ->
    - 1000 <= width - Z.of_nat fuel /\ width <= 1000 ->
    exists D,
      Format64_digits fuel ep width v
      = ((D ++ ep)%string, width - Z.of_nat (String.length D))
      /\ decimal_of D v
      /\ (String.length D <= S fuel)%nat.
Proof.
  assert (One : forall v, 0 <= v < 10 ->
            decimal_of (String (kDigits_at (Z.rem v 10)) EmptyString) v).
  { intros v Hv. assert (R : Z.rem v 10 = v) by (apply Z.rem_small; lia).
    rewrite R. unfold decimal_of, dec_value.
    cbn [dec_value_from String.length]. rewrite kDigits_at_digit by lia.
    repeat split; try lia; try (f_equal; lia). }
  induction fuel as [| fuel IH]; intros ep width v Hv Hw.
  - exists (String (kDigits_at (Z.rem v 10)) EmptyString).
    cbn [Format64_digits append String.length].
    change (2 ^ (Z.of_nat 0 + 1)) with 2 in Hv.
    rewrite int32_small by in_range.
    split; [f_equal; lia |]. split; [apply One; lia | lia].
  - cbn [Format64_digits].
    rewrite int32_small by in_range.
    rewrite pow2_succ in Hv.
    destruct (Z.eqb_spec (Z.quot v 10) 0) as [Q | Q].
    + exists (String (kDigits_at (Z.rem v 10)) EmptyString).
      cbn [append String.length].
      split; [f_equal; lia |]. split; [apply One; lia | lia].
    + destruct (IH (String (kDigits_at (Z.rem v 10)) ep) (width - 1)
                  (Z.quot v 10)) as (D & E & (Dv & Dl & Dhi & Dlo) & Df).
      { lia. }
      { lia. }
      exists (D ++ String (kDigits_at (Z.rem v 10)) EmptyString)%string.
      rewrite E, <- app_assoc1, length_app. cbn [String.length].
      split; [f_equal; lia |].
      split; [| lia].
      unfold decimal_of, dec_value.
      rewrite dec_value_from_app. unfold dec_value in Dv. rewrite Dv.
      cbn [dec_value_from]. rewrite kDigits_at_digit by lia.
      rewrite length_app. cbn [String.length].
      replace (String.length D + 1)%nat with (S (String.length D)) by lia.
      rewrite pow10_succ.
      replace (Z.of_nat (S (String.length D)) - 1)
        with (Z.of_nat (String.length D)) by lia.
      assert (P : 10 ^ Z.of_nat (String.length D)
                  = 10 * 10 ^ (Z.of_nat (String.length D) - 1)).
      { replace (Z.of_nat (String.length D))
          with (Z.succ (Z.of_nat (String.length D) - 1)) at 1 by lia.
        apply Z.pow_succ_r. lia. }
      repeat split; try (f_equal; lia); try lia.
Qed.

Lemma zeros_shift (n : nat) (s : string) :
  zeros n (String "0" s) = String "0" (zeros n s).
Proof.
  induction n as [| n IH]; [reflexivity |].
  cbn [zeros]. rewrite IH. reflexivity.
Qed.

Lemma zero_pad_zeros (n : nat) (s : string) : zero_pad n s = zeros n s.
Proof.
  revert s. induction n as [| n IH]; intros s; [reflexivity |].
  cbn [zero_pad zeros]. rewrite IH. apply zeros_shift.
Qed.

Lemma length_zeros (n : nat) (s : string) :
  String.length (zeros n s) = (n + String.length s)%nat.
Proof.
  induction n as [| n IH]; [reflexivity |].
  cbn [zeros String.length]. rewrite IH. reflexivity.
Qed.

Lemma dec_value_zeros (n : nat) (s : string) :
  dec_value (zeros n s) = dec_value s.
Proof.
  unfold dec_value. induction n as [| n IH]; [reflexivity |].
  cbn [zeros dec_value_from]. exact IH.
Qed.

Lemma app_empty (s : string) : (s ++ EmptyString)%string = s.
Proof.
  induction s as [| c s IH]; [reflexivity |].
  cbn [append]. rewrite IH. reflexivity.
Qed.

Lemma log2_fuel (v : Z) :
  0 <= v <= INT64_MAX ->
  0 <= v < 2 ^ (Z.of_nat (Z.to_nat (Z.log2 v)) + 1)
  /\ Z.of_nat (Z.to_nat (Z.log2 v)) <= 62.
Proof.
  unfold INT64_MAX. intros H.
  pose proof (Z.log2_nonneg v) as N.
  rewrite Z2Nat.id by exact N.
  destruct (Z.eq_dec v 0) as [-> | NZ].
  - change (Z.log2 0) with 0. change (2 ^ (0 + 1)) with 2. lia.
  - pose proof (Z.log2_spec v ltac:(lia)) as [_ S].
    replace (Z.log2 v + 1) with (Z.succ (Z.log2 v)) by lia.
    split; [lia |].
    assert (Z.log2 v < 63); [| lia].
    apply Z.log2_lt_pow2; lia.
Qed.

(** [Format64] of a value that is not negative: its decimal digits,
    padded with zeros to [width]. *)
Lemma Format64_nonneg (ep : string) (width v : Z) :
  0 <= v <= INT64_MAX -> 0 <= width <= 100 ->
  exists D,
    decimal_of D v
    /\ (String.length D <= 63)%nat
    /\ Format64 ep width v
       = zeros (Z.to_nat (width - Z.of_nat (String.length D)))
           (D ++ ep)%string.
Proof.
  intros Hv Hw. unfold Format64.
  destruct (Z.ltb_spec v 0) as [N | _]; [lia |].
  destruct (log2_fuel v Hv) as [F1 F2].
  destruct (Format64_digits_spec (Z.to_nat (Z.log2 v)) ep width v F1)
    as (D & E & Dd & Dl); [lia |].
  rewrite E. exists D.
  split; [exact Dd |]. split; [lia |].
  apply zero_pad_zeros.
Qed.

(** [Format64] of a negative value other than [INT64_MIN]: a minus sign
    and the digits of its magnitude, padded with zeros to [width - 1]. *)
Lemma Format64_neg (ep : string) (width v : Z) :
  INT64_MIN < v < 0 -> 0 <= width <= 100 ->
  exists D,
    decimal_of D (- v)
    /\ (String.length D <= 63)%nat
    /\ Format64 ep width v
       = String "-"
           (zeros (Z.to_nat (width - 1 - Z.of_nat (String.length D)))
              (D ++ ep)%string).
Proof.
  unfold INT64_MIN. intros Hv Hw. unfold Format64.
  destruct (Z.ltb_spec v 0) as [_ | N]; [| lia].
  destruct (Z.eqb_spec v INT64_MIN) as [M | _];
    [unfold INT64_MIN in M; lia |].
  rewrite (int32_small (width - 1)) by in_range.
  rewrite (int64_small (- v)) by in_range.
  assert (Hv' : 0 <= - v <= INT64_MAX) by (unfold INT64_MAX; lia).
  destruct (log2_fuel (- v) Hv') as [F1 F2].
  destruct (Format64_digits_spec (Z.to_nat (Z.log2 (- v))) ep (width - 1)
              (- v) F1) as (D & E & Dd & Dl); [lia |].
  rewrite E. exists D.
  split; [exact Dd |]. split; [lia |].
  rewrite zero_pad_zeros. reflexivity.
Qed.

Lemma pow10_le (a b : Z) : 0 <= a <= b -> 10 ^ a <= 10 ^ b.
Proof. intros H. apply Z.pow_le_mono_r; lia. Qed.

(** The length of a decimal representation against the powers of ten. *)
Lemma decimal_of_length_le (D : string) (v : Z) (n : nat) :
  decimal_of D v -> v < 10 ^ Z.of_nat n -> (1 <= n)%nat ->
  (String.length D <= n)%nat.
Proof.
  intros (_ & L1 & _ & [[_ L] | Lo]) Hv Hn; [lia |].
  destruct (Nat.le_gt_cases (String.length D) n) as [| G]; [assumption |].
  pose proof (pow10_le (Z.of_nat n) (Z.of_nat (String.length D) - 1)
                ltac:(lia)).
  lia.
Qed.

Lemma decimal_of_length_gt (D : string) (v : Z) (n : nat) :
  decimal_of D v -> 10 ^ Z.of_nat n <= v ->
  (n < String.length D)%nat.
Proof.
  intros (_ & _ & Hi & _) Hv.
  destruct (Nat.le_gt_cases (String.length D) n) as [L |]; [| assumption].
  pose proof (pow10_le (Z.of_nat (String.length D)) (Z.of_nat n)
                ltac:(lia)).
  lia.
Qed.

Lemma Format64_INT64_MIN :
  Format64 EmptyString 4 INT64_MIN = "-9223372036854775808"%string
  /\ Format64 EmptyString 0 INT64_MIN = "-9223372036854775808"%string.
Proof. split; vm_compute; reflexivity. Qed.

Lemma decimal_of_INT64_MIN :
  decimal_of "9223372036854775808" (Z.abs INT64_MIN).
Proof.
  unfold decimal_of. cbn [String.length].
  split; [vm_compute; reflexivity |].
  split; [lia |].
  split; [vm_compute; reflexivity |].
  right. vm_compute. discriminate.
Qed.

(** How [%E4Y] renders a year. *)
Lemma Format64_width4 (year : Z) :
  in_int64 year ->
  exists body,
    Format64 EmptyString 4 year
    = (if year <? 0 then String "-" body else body)
    /\ dec_value body = Some (Z.abs year)
    /\ (- 999 <= year <= 9999 ->
        String.length (Format64 EmptyString 4 year) = 4%nat)
    /\ (year < - 999 \/ 9999 < year ->
        (4 < String.length (Format64 EmptyString 4 year) <= 20)%nat
        /\ decimal_of body (Z.abs year)).
Proof.
  intros I. unfold in_int64 in I.
  destruct (Z.ltb_spec year 0) as [N | P].
  - destruct (Z.eq_dec year INT64_MIN) as [-> | NM].
    + exists "9223372036854775808"%string.
      rewrite (proj1 Format64_INT64_MIN).
      split; [reflexivity |]. split; [vm_compute; reflexivity |].
      split; [unfold INT64_MIN; lia |].
      intros _. split; [cbn [String.length]; lia |].
      exact decimal_of_INT64_MIN.
    + destruct (Format64_neg EmptyString 4 year ltac:(lia) ltac:(lia))
        as (D & Dd & _ & E).
      rewrite app_empty in E.
      exists (zeros (Z.to_nat (4 - 1 - Z.of_nat (String.length D))) D).
      rewrite E. cbn [String.length]. rewrite length_zeros.
      replace (Z.abs year) with (- year) by lia.
      split; [reflexivity |].
      split; [rewrite dec_value_zeros; exact (proj1 Dd) |].
      split.
      * intros R.
        pose proof (decimal_of_length_le D (- year) 3 Dd) as L.
        change (10 ^ Z.of_nat 3) with 1000 in L. lia.
      * intros R.
        pose proof (decimal_of_length_gt D (- year) 3 Dd) as L.
        change (10 ^ Z.of_nat 3) with 1000 in L.
        pose proof (decimal_of_length_le D (- year) 19 Dd) as U.
        change (10 ^ Z.of_nat 19) with 10000000000000000000 in U.
        unfold INT64_MIN in *.
        replace (Z.to_nat (4 - 1 - Z.of_nat (String.length D))) with O
          by lia.
        cbn [zeros]. split; [lia | exact Dd].
  - destruct (Format64_nonneg EmptyString 4 year ltac:(lia) ltac:(lia))
      as (D & Dd & _ & E).
    rewrite app_empty in E.
    exists (zeros (Z.to_nat (4 - Z.of_nat (String.length D))) D).
    rewrite E, length_zeros.
    replace (Z.abs year) with year by lia.
    split; [reflexivity |].
    split; [rewrite dec_value_zeros; exact (proj1 Dd) |].
    split.
    + intros R.
      pose proof (decimal_of_length_le D year 4 Dd) as L.
      change (10 ^ Z.of_nat 4) with 10000 in L. lia.
    + intros R.
      pose proof (decimal_of_length_gt D year 4 Dd) as L.
      change (10 ^ Z.of_nat 4) with 10000 in L.
      pose proof (decimal_of_length_le D year 19 Dd) as U.
      change (10 ^ Z.of_nat 19) with 10000000000000000000 in U.
      unfold INT64_MAX in *.
      replace (Z.to_nat (4 - Z.of_nat (String.length D))) with O by lia.
      cbn [zeros]. split; [lia | exact Dd].
Qed.

Lemma Format64_width4_in_buf (year : Z) :
  in_int64 year ->
  in_buf (Format64 EmptyString 4 year) = Some (Format64 EmptyString 4 year).
Proof.
  intros I. destruct (Format64_width4 year I) as (body & _ & _ & In & Out).
  unfold in_buf, sizeof_buf, kDigits10_64.
  destruct (Z.leb_spec (Z.of_nat (String.length (Format64 EmptyString 4 year)))
              (3 + 18)) as [| G]; [reflexivity |].
  assert (C : - 999 <= year <= 9999 \/ (year < - 999 \/ 9999 < year)) by lia.
  destruct C as [C | C].
  - specialize (In C). lia.
  - destruct (Out C) as [L _]. lia.
Qed.

Lemma Format_step_E4Y (h : Host) (bd : Breakdown) (tm0 : tm)
  (tp : time_point) :
  Format_step h "%E4Y" bd tm0 tp (mkFState EmptyString O O) =
  match in_buf (Format64 EmptyString 4 (bd_year bd)) with
  | Some s => Some (mkFState s 4 4)
  | None => None
  end.
Proof.
  cbv - [Format64 in_buf bd_year]. reflexivity.
Qed.

Lemma Format_E4Y (h : Host) (tp : time_point) (tz : TimeZone) :
  in_int64 (bd_year (If_BreakTime tz tp)) ->
  Format h "%E4Y" tp tz
  = Some (Format64 EmptyString 4 (bd_year (If_BreakTime tz tp))).
Proof.
  intros I. unfold Format.
  change (String.length "%E4Y") with 4%nat.
  cbn [Format_loop cur]. change (String.length "%E4Y") with 4%nat.
  cbn [Nat.eqb].
  rewrite Format_step_E4Y, (Format64_width4_in_buf _ I).
  reflexivity.
Qed.

(** C8.  [%E4Y] emits the year as a minus sign, if it is negative, and
    its decimal digits padded with zeros on the left, after the sign,
    to four characters in all; a year outside [-999, 9999] takes more
    than four characters and is not padded.  Year -1 gives "-001" and
    year 12345 gives "12345". *)
Theorem C8_E4Y_four_characters :
  (forall year,
     in_int64 year ->
     exists body,
       Format64 EmptyString 4 year
       = (if year <? 0 then String "-" body else body)
       /\ dec_value body = Some (Z.abs year)
       /\ (- 999 <= year <= 9999 ->
           String.length (Format64 EmptyString 4 year) = 4%nat)
       /\ (year < - 999 \/ 9999 < year ->
           (4 < String.length (Format64 EmptyString 4 year) <= 20)%nat
           /\ decimal_of body (Z.abs year)))
  /\ (forall h tp tz,
        in_int64 (bd_year (If_BreakTime tz tp)) ->
        Format h "%E4Y" tp tz
        = Some (Format64 EmptyString 4 (bd_year (If_BreakTime tz tp))))
  /\ Format64 EmptyString 4 (-1) = "-001"%string
  /\ Format64 EmptyString 4 12345 = "12345"%string.
Proof.
  split; [exact Format64_width4 |].
  split; [exact Format_E4Y |].
  split; vm_compute; reflexivity.
Qed.

Lemma C8_E4Y_four_characters_witness :
  Format (host_in_year (-1)) "%E4Y" 0 (UTCTimeZone (host_in_year (-1)))
  = Some (Format64 EmptyString 4
            (bd_year (If_BreakTime (UTCTimeZone (host_in_year (-1))) 0)))
  /\ Format64 EmptyString 4
       (bd_year (If_BreakTime (UTCTimeZone (host_in_year (-1))) 0))
     = "-001"%string.
Proof.
  split.
  - apply (proj1 (proj2 C8_E4Y_four_characters)).
    vm_compute. split; discriminate.
  - vm_compute. reflexivity.
Defined.

(** ** The scratch buffer *)

Lemma in_buf_fits (s : string) :
  Z.of_nat (String.length s) <= sizeof_buf -> in_buf s = Some s.
Proof.
  intros H. unfold in_buf.
  destruct (Z.leb_spec (Z.of_nat (String.length s)) sizeof_buf);
    [reflexivity | lia].
Qed.

Lemma Format02d_length (ep : string) (v : Z) :
  String.length (Format02d ep v) = S (S (String.length ep)).
Proof. reflexivity. Qed.

Lemma FormatOffset_length (ep : string) (minutes : Z) (sep : ascii) :
  (String.length (FormatOffset ep minutes sep) <= 6 + String.length ep)%nat.
Proof.
  unfold FormatOffset.
  destruct (minutes <? 0); destruct (Ascii.eqb sep NUL);
    cbn [String.length Format02d]; lia.
Qed.

(** A conversion of a 64-bit value with the width of [%Y], [%s] or
    [%E4Y] takes at most twenty characters. *)
Lemma Format64_length_int64 (width v : Z) :
  in_int64 v -> width = 0 \/ width = 4 ->
  (String.length (Format64 EmptyString width v) <= 20)%nat.
Proof.
  intros I W. unfold in_int64 in I.
  destruct (Z.ltb_spec v 0) as [N | P].
  - destruct (Z.eq_dec v INT64_MIN) as [-> | NM].
    + destruct W as [-> | ->];
        [rewrite (proj2 Format64_INT64_MIN)
        | rewrite (proj1 Format64_INT64_MIN)];
        cbn [String.length]; lia.
    + destruct (Format64_neg EmptyString width v ltac:(lia) ltac:(lia))
        as (D & Dd & _ & E).
      rewrite E, app_empty. cbn [String.length]. rewrite length_zeros.
      pose proof (decimal_of_length_le D (- v) 19 Dd) as U.
      change (10 ^ Z.of_nat 19) with 10000000000000000000 in U.
      unfold INT64_MIN in *. lia.
  - destruct (Format64_nonneg EmptyString width v ltac:(lia) ltac:(lia))
      as (D & Dd & _ & E).
    rewrite E, app_empty, length_zeros.
    pose proof (decimal_of_length_le D v 19 Dd) as U.
    change (10 ^ Z.of_nat 19) with 10000000000000000000 in U.
    unfold INT64_MAX in *. lia.
Qed.

(** A value below [10 ^ n] converted with width [n] takes exactly [n]
    characters. *)
Lemma Format64_length_fraction (n : nat) (v : Z) :
  (1 <= n <= 18)%nat -> 0 <= v < 10 ^ Z.of_nat n ->
  String.length (Format64 EmptyString (Z.of_nat n) v) = n.
Proof.
  intros Hn Hv.
  assert (B : 10 ^ Z.of_nat n <= 10 ^ 18) by (apply pow10_le; lia).
  change (10 ^ 18) with 1000000000000000000 in B.
  destruct (Format64_nonneg EmptyString (Z.of_nat n) v) as (D & Dd & _ & E).
  { unfold INT64_MAX. lia. }
  { lia. }
  rewrite E, app_empty, length_zeros.
  pose proof (decimal_of_length_le D v n Dd). lia.
Qed.

Lemma int64_in_int64 (z : Z) : in_int64 (int64 z).
Proof.
  unfold in_int64, INT64_MIN, INT64_MAX, int64.
  pose proof (wrap_range 64 z ltac:(lia)) as R.
  change (2 ^ (64 - 1)) with (2 ^ 63) in R. lia.
Qed.

Lemma Format_simple_in_buf (c : ascii) (bd : Breakdown) (tp : time_point) :
  breakdown_in_range bd -> Format_simple c bd tp <> None.
Proof.
  intros [Y _]. unfold Format_simple.
  repeat match goal with
  | |- (if ?b then _ else _) <> None => destruct b
  end;
  try (rewrite in_buf_fits; [discriminate |]);
  try discriminate;
  unfold sizeof_buf, kDigits10_64;
  try (rewrite Format02d_length; cbn [String.length]; lia).
  - pose proof (Format64_length_int64 0 (bd_year bd) Y ltac:(lia)). lia.
  - pose proof (FormatOffset_length EmptyString
                  (Z.quot (bd_offset bd) 60) NUL) as L.
    cbn [String.length] in L. lia.
  - pose proof (Format64_length_int64 0
                  (duration_cast_seconds (int128 (tp - 0)))
                  (int64_in_int64 _) ltac:(lia)). lia.
Qed.

Lemma Format_E_star_S_in_buf (bd : Breakdown) :
  breakdown_in_range bd -> Format_E_star_S bd <> None.
Proof.
  unfold breakdown_in_range, kNanosPerSecond. intros [_ S].
  unfold Format_E_star_S.
  rewrite (int64_small (bd_subsecond bd)) by in_range.
  pose proof (Format64_length_fraction 9 (bd_subsecond bd) ltac:(lia)) as L.
  change (10 ^ Z.of_nat 9) with 1000000000 in L.
  change (Z.of_nat 9) with 9 in L. specialize (L S).
  rewrite in_buf_fits; [discriminate |].
  unfold sizeof_buf, kDigits10_64. rewrite Format02d_length.
  destruct (strip_zeros _ =? 0)%nat; cbn [String.length]; lia.
Qed.

Lemma Format_E_n_S_in_buf (n : Z) (bd : Breakdown) :
  breakdown_in_range bd -> Format_E_n_S n bd <> None.
Proof.
  unfold breakdown_in_range, kNanosPerSecond. intros [_ S].
  unfold Format_E_n_S.
  rewrite (int64_small (bd_subsecond bd)) by in_range.
  set (ns := bd_subsecond bd) in *.
  rewrite in_buf_fits; [discriminate |].
  unfold sizeof_buf, kDigits10_64. rewrite Format02d_length.
  destruct (Z.gtb_spec n 0) as [P | _]; [| cbn [String.length]; lia].
  set (m := if n >? 18 then 18 else n).
  assert (Hm : 1 <= m <= 18) by (subst m; destruct (Z.gtb_spec n 18); lia).
  clearbody m.
  set (v := if m >? 9 then int64 (ns * kExp10 (m - 9))
            else Z.quot ns (kExp10 (9 - m))).
  assert (Hv : 0 <= v < 10 ^ Z.of_nat (Z.to_nat m)).
  { rewrite Z2Nat.id by lia. subst v.
    assert (C : m = 1 \/ m = 2 \/ m = 3 \/ m = 4 \/ m = 5 \/ m = 6 \/ m = 7
                \/ m = 8 \/ m = 9 \/ m = 10 \/ m = 11 \/ m = 12 \/ m = 13
                \/ m = 14 \/ m = 15 \/ m = 16 \/ m = 17 \/ m = 18) by lia.
    repeat (destruct C as [-> | C];
      [cbv [Z.gtb Z.compare Pos.compare Pos.compare_cont];
       match goal with
       | |- context [kExp10 ?k] =>
           let e := eval vm_compute in (kExp10 k) in
           change (kExp10 k) with e
       end;
       match goal with
       | |- context [10 ^ ?k] =>
           let e := eval vm_compute in (10 ^ k) in
           change (10 ^ k) with e
       end;
       try (rewrite int64_small by in_range); lia |]).
    subst m.
    cbv [Z.gtb Z.compare Pos.compare Pos.compare_cont].
    change (kExp10 (18 - 9)) with 1000000000.
    change (10 ^ 18) with 1000000000000000000.
    rewrite int64_small by in_range. lia. }
  pose proof (Format64_length_fraction (Z.to_nat m) v ltac:(lia) Hv) as L.
  rewrite Z2Nat.id in L by lia.
  cbn [String.length]. rewrite L. lia.
Qed.

Lemma FormatOffset_in_buf (minutes : Z) (sep : ascii) :
  in_buf (FormatOffset EmptyString minutes sep) <> None.
Proof.
  rewrite in_buf_fits; [discriminate |].
  pose proof (FormatOffset_length EmptyString minutes sep) as L.
  cbn [String.length] in L. unfold sizeof_buf, kDigits10_64. lia.
Qed.

Lemma Format64_year4_in_buf (bd : Breakdown) :
  breakdown_in_range bd ->
  in_buf (Format64 EmptyString 4 (bd_year bd)) <> None.
Proof.
  intros [Y _]. rewrite (Format64_width4_in_buf _ Y). discriminate.
Qed.

Lemma Format_step_in_buf (h : Host) (F : string) (bd : Breakdown)
  (tm0 : tm) (tp : time_point) (st : FState) :
  breakdown_in_range bd -> Format_step h F bd tm0 tp st <> None.
Proof.
  intros R. unfold Format_step. cbv zeta.
  repeat match goal with
  | |- context [let '(_, _) := ?x in _] => destruct x
  | |- context [match Format_simple ?c bd tp with _ => _ end] =>
      let E := fresh "E" in
      destruct (Format_simple c bd tp) eqn:E;
        [| exfalso; exact (Format_simple_in_buf c bd tp R E)]
  | |- context [match Format_E_star_S bd with _ => _ end] =>
      let E := fresh "E" in
      destruct (Format_E_star_S bd) eqn:E;
        [| exfalso; exact (Format_E_star_S_in_buf bd R E)]
  | |- context [match Format_E_n_S ?n bd with _ => _ end] =>
      let E := fresh "E" in
      destruct (Format_E_n_S n bd) eqn:E;
        [| exfalso; exact (Format_E_n_S_in_buf n bd R E)]
  | |- context [match in_buf (FormatOffset ?e ?m ?s) with _ => _ end] =>
      let E := fresh "E" in
      destruct (in_buf (FormatOffset e m s)) eqn:E;
        [| exfalso; exact (FormatOffset_in_buf m s E)]
  | |- context [match in_buf (Format64 EmptyString 4 (bd_year bd))
                with _ => _ end] =>
      let E := fresh "E" in
      destruct (in_buf (Format64 EmptyString 4 (bd_year bd))) eqn:E;
        [| exfalso; exact (Format64_year4_in_buf bd R E)]
  | |- (if ?b then _ else _) <> None => destruct b
  | |- match ?x with _ => _ end <> None => destruct x
  end;
  discriminate.
Qed.

Lemma Format_loop_in_buf (fuel : nat) (h : Host) (F : string)
  (bd : Breakdown) (tm0 : tm) (tp : time_point) (st : FState) :
  breakdown_in_range bd -> Format_loop fuel h F bd tm0 tp st <> None.
Proof.
  intros R. revert st. induction fuel as [| fuel IH]; intros st;
    [discriminate |].
  cbn [Format_loop].
  destruct (cur st =? String.length F)%nat; [discriminate |].
  destruct (Format_step h F bd tm0 tp st) as [st' |] eqn:E.
  - apply IH.
  - exfalso. exact (Format_step_in_buf h F bd tm0 tp st R E).
Qed.

(** For an instant whose seconds fit [time_t] no conversion of [Format]
    leaves the scratch buffer, whatever the format. *)
Lemma Format_in_range_stays_in_buf (h : Host) (F : string)
  (tp : time_point) (z : TimeZoneLibC) :
  time_t_instant tp ->
  Format h F tp (TimeZoneLibC_If h z) <> None.
Proof.
  intros T. unfold Format.
  assert (R : breakdown_in_range (If_BreakTime (TimeZoneLibC_If h z) tp)).
  { split.
    - cbn [If_BreakTime TimeZoneLibC_If]. unfold BreakTime.
      destruct (BreakTime_split tp) as [t ss].
      destruct (if local_ z then _ else _) as [tm0 abbr].
      cbn [bd_year].
      unfold in_int64, INT64_MIN, INT64_MAX, int32.
      pose proof (wrap_range 32 (tm_year tm0 + 1900) ltac:(lia)) as W.
      change (2 ^ (32 - 1)) with 2147483648 in W. lia.
    - cbn [If_BreakTime TimeZoneLibC_If]. unfold BreakTime.
      rewrite (BreakTime_split_floor tp T).
      destruct (if local_ z then _ else _) as [tm0 abbr].
      cbn [bd_subsecond]. apply Z.mod_pos_bound.
      unfold kNanosPerSecond. lia. }
  destruct (Format_loop _ _ _ _ _ _ _) eqn:E; [discriminate |].
  exfalso. exact (Format_loop_in_buf _ _ _ _ _ _ _ R E).
Qed.

(** C9.  For the instant 2^63 + 1 seconds before the epoch the whole
    seconds wrap, the subsecond narrows to a full second, and [%E18S]
    writes nineteen digits, the decimal point and the two digits of the
    seconds: one character more than the scratch buffer holds. *)
Theorem C9_E18S_leaves_scratch_buffer (h : Host) :
  let tp := - (2 ^ 63 + 1) * kNanosPerSecond in
  let bd := If_BreakTime (UTCTimeZone h) tp in
  in_time_point tp
  /\ int64 (bd_subsecond bd) = kNanosPerSecond
  /\ Z.of_nat
       (String.length
          (Format02d
             (String "."
                (Format64 EmptyString 18
                   (int64 (int64 (bd_subsecond bd) * kExp10 (18 - 9)))))
             (bd_second bd)))
     = sizeof_buf + 1
  /\ Format_E_n_S 18 bd = None
  /\ Format h "%E18S" tp (UTCTimeZone h) = None.
Proof.
  cbv zeta. split.
  - unfold in_time_point, kNanosPerSecond. lia.
  - repeat split; vm_compute; reflexivity.
Qed.

(** ** The scan of [Format] runs to its end *)

Lemma length_substring_le (s : string) :
  forall n m, (String.length (substring n m s) <= m)%nat.
Proof.
  induction s as [| c s IH]; intros [| n] [| m];
    cbn [substring String.length]; try lia.
  - specialize (IH 0%nat m). lia.
  - apply (IH n 0%nat).
  - apply (IH n (S m)).
Qed.

Lemma length_string_from_le (F : string) (i : nat) :
  (String.length (string_from F i) <= String.length F - i)%nat.
Proof. unfold string_from. apply length_substring_le. Qed.

Lemma string_from_cons (F : string) :
  forall i,
    (i < String.length F)%nat ->
    string_from F i = String (char_at F i) (string_from F (S i)).
Proof.
  unfold string_from, char_at.
  induction F as [| c F IH]; intros i L; cbn [String.length] in L; [lia |].
  destruct i as [| i].
  - cbn [String.length Nat.sub substring String.get].
    rewrite Nat.sub_0_r. reflexivity.
  - cbn [String.length Nat.sub substring String.get].
    rewrite (IH i) by lia. reflexivity.
Qed.

Lemma span_le (p : ascii -> bool) (s : string) :
  (span p s <= String.length s)%nat.
Proof.
  induction s as [| c s IH]; cbn [span String.length]; [lia |].
  destruct (p c); lia.
Qed.

(** Moving to the next percent sign and then over the percent signs
    takes the cursor at least one character forward and not beyond the
    end. *)
Lemma spans_progress (F : string) (i : nat) :
  (i < String.length F)%nat ->
  let j := (i + span (fun c => negb (Ascii.eqb c "%")) (string_from F i))%nat in
  let k := (j + span (fun c => Ascii.eqb c "%") (string_from F j))%nat in
  (i <= j <= k)%nat /\ (i < k <= String.length F)%nat.
Proof.
  intros L. cbv zeta.
  pose proof (span_le (fun c => negb (Ascii.eqb c "%")) (string_from F i))
    as S1.
  pose proof (length_string_from_le F i) as L1.
  set (j := (i + span (fun c => negb (Ascii.eqb c "%")) (string_from F i))%nat)
    in *.
  pose proof (span_le (fun c => Ascii.eqb c "%") (string_from F j)) as S2.
  pose proof (length_string_from_le F j) as L2.
  assert (P : (i < j)%nat
              \/ (1 <= span (fun c => Ascii.eqb c "%") (string_from F j))%nat).
  { subst j. rewrite (string_from_cons F i L). cbn [span].
    destruct (Ascii.eqb (char_at F i) "%") eqn:E; cbn [negb].
    - right. rewrite Nat.add_0_r, (string_from_cons F i L). cbn [span].
      rewrite E. lia.
    - left. lia. }
  lia.
Qed.

(** Breaks the goal along the tests of the scan and keeps what each
    test found. *)
Ltac scan_cases_eqn :=
  repeat match goal with
  | |- context [let '(_, _) := ?x in _] => destruct x eqn:?
  | |- context [match ?x with _ => _ end] =>
      match type of x with
      | bool => destruct x eqn:?
      | option _ => destruct x eqn:?
      | prod _ _ => destruct x eqn:?
      end
  end.

Ltac nat_tests :=
  repeat match goal with
  | H : (_ =? _)%nat = true |- _ => apply Nat.eqb_eq in H
  | H : (_ =? _)%nat = false |- _ => apply Nat.eqb_neq in H
  | H : negb _ = true |- _ => apply negb_true_iff in H
  | H : negb _ = false |- _ => apply negb_false_iff in H
  | H : _ && _ = true |- _ => apply andb_true_iff in H; destruct H
  | H : _ || _ = false |- _ => apply orb_false_iff in H; destruct H
  end.

Lemma Format_step_progress (h : Host) (F : string) (bd : Breakdown)
  (tm0 : tm) (tp : time_point) (st st' : FState) :
  (cur st < String.length F)%nat ->
  Format_step h F bd tm0 tp st = Some st' ->
  (cur st < cur st' <= String.length F)%nat.
Proof.
  intros L. unfold Format_step. cbv zeta.
  pose proof (spans_progress F (cur st) L) as P. cbv zeta in P.
  set (j := (cur st + span (fun c => negb (Ascii.eqb c "%"))
                        (string_from F (cur st)))%nat) in *.
  set (k := (j + span (fun c => Ascii.eqb c "%") (string_from F j))%nat) in *.
  clearbody k. clearbody j.
  destruct (ParseInt 32 (Some (string_from F (S k))) 0 0 1024)
    as [[np n] |] eqn:PI.
  - apply ParseInt_length in PI.
    pose proof (length_string_from_le F (S k)) as LS.
    scan_cases_eqn; intros E; try discriminate;
      injection E as <-; cbn [cur]; nat_tests;
      try lia.
    all: match goal with
         | H : Ascii.eqb (peek ?x) "S" = true |- _ =>
             destruct x; [discriminate H |]; cbn [String.length] in *; lia
         end.
  - scan_cases_eqn; intros E; try discriminate;
      injection E as <-; cbn [cur]; nat_tests; lia.
Qed.

(** The scan stops only when the cursor is at the end of the format:
    its bound on the number of turns is never what ends it. *)
Lemma Format_loop_exit (h : Host) (F : string) (bd : Breakdown) (tm0 : tm)
  (tp : time_point) (fuel : nat) :
  forall st st',
    (String.length F - cur st <= fuel)%nat ->
    (cur st <= String.length F)%nat ->
    Format_loop fuel h F bd tm0 tp st = Some st' ->
    cur st' = String.length F.
Proof.
  induction fuel as [| fuel IH]; intros st st' M L; cbn [Format_loop].
  - intros E. injection E as <-. lia.
  - destruct (Nat.eqb_spec (cur st) (String.length F)) as [C | C].
    + intros E. injection E as <-. exact C.
    + destruct (Format_step h F bd tm0 tp st) as [st1 |] eqn:S;
        [| discriminate].
      pose proof (Format_step_progress h F bd tm0 tp st st1
                    ltac:(lia) S) as P.
      apply IH; lia.
Qed.

Lemma Format_scan_complete (h : Host) (F : string) (bd : Breakdown)
  (tm0 : tm) (tp : time_point) (st' : FState) :
  Format_loop (String.length F) h F bd tm0 tp (mkFState EmptyString O O)
  = Some st' ->
  cur st' = String.length F.
Proof.
  apply Format_loop_exit; cbn [cur]; lia.
Qed.
